(** * The template-selection notebook of af2_conformations

    A shallow embedding of the sweep cell of
    [notebooks/choose_templates.ipynb]: the alignment fetch through
    [mmseqs2.MMSeqs2Runner], followed by the nested loop over MSA depths
    and repetitions that calls [predict.predict_structure_from_templates].

    The cell is a sequential Python program with side effects (network
    calls, a random generator, files on disk) that may raise.  It is
    embedded in a state-and-exception monad [Cell] over a [World]; the
    remote service, the pretrained network and what the random generator
    returns
    are the fields of an [Environment] over which every theorem
    quantifies. *)

From Stdlib Require Import ZArith QArith Ascii String.
From stdpp Require Import base numbers strings pretty list gmap.

#[local] Set Warnings "-clear-no-such-hyp".

Local Open Scope string_scope.
Local Open Scope list_scope.
Local Open Scope Z_scope.

(** ** Data model *)

(** A Python exception, identified by its message. *)
Definition Exc : Type := string.

Inductive result (A : Type) : Type :=
  | Ok (a : A)
  | Raise (e : Exc).
Arguments Ok {A} a.
Arguments Raise {A} e.

Definition returned {A} (o : result A) : bool :=
  match o with Ok _ => true | Raise _ => false end.

(** The keyword arguments of one call of
    [predict.predict_structure_from_templates], as the cell passes them. *)
Record PredictionRequest : Type := {
  req_seq : string;
  req_outname : string;
  req_a3m_lines : string;
  req_template_path : string;
  req_model_id : Z;
  req_max_msa_clusters : Z;
  req_max_extra_msa : Z;
  req_max_recycles : Z
}.

(** One submission to the alignment service: the runner's job name and
    sequence and the [templates] argument of [run_job] ([None] when the
    caller leaves the argument out). *)
Record FetchCall : Type := {
  fetch_job : string;
  fetch_seq : string;
  fetch_templates : option (list string)
}.

(** What the remote service reports for a sequence: the alignment text and
    the identifiers of the templates it found. *)
Record ServiceReply : Type := {
  reply_a3m : string;
  reply_templates : list string
}.

(** The calls the cell makes to the two scripts, each with its outcome:
    what [run_job] returned (alignment text and template path) or raised,
    and whether the prediction returned or raised. *)
Inductive Event : Type :=
  | Fetch (c : FetchCall) (outcome : result (string * string))
  | Predict (req : PredictionRequest) (outcome : result unit).

(** The part of the machine the cell acts on.  [files] are the structure
    files in the working directory, [dirs] the template directories with
    the templates downloaded into them, [rng_draws] counts the calls made
    to the random generator's [_randbelow].  [log] records the calls completed so
    far, oldest first. *)
Record World : Type := {
  files : gmap string string;
  dirs : gmap string (list string);
  rng_draws : nat;
  log : list Event
}.

Definition set_files (f : gmap string string) (w : World) : World :=
  {| files := f; dirs := dirs w; rng_draws := rng_draws w; log := log w |}.

Definition set_dirs (d : gmap string (list string)) (w : World) : World :=
  {| files := files w; dirs := d; rng_draws := rng_draws w; log := log w |}.

Definition tick_rng (w : World) : World :=
  {| files := files w; dirs := dirs w; rng_draws := S (rng_draws w);
     log := log w |}.

Definition record (ev : Event) (w : World) : World :=
  {| files := files w; dirs := dirs w; rng_draws := rng_draws w;
     log := log w ++ [ev] |}.

(** Everything outside the repository that the cell talks to. *)
Record Environment : Type := {
  (** what the [k]-th call of the random generator's [_randbelow]
      returns, before it is brought below the bound of that call *)
  entropy : nat → nat;
  (** the remote MMseqs2 service, queried with a sequence *)
  service : string → result ServiceReply;
  (** one forward pass of the pretrained network: the text of the
      structure file, or an exception *)
  forward_pass : World → PredictionRequest → result string;
  (** the working directory keyed by the job name *)
  workdir : string → string;
  (** what the client does when a non-empty template list matches nothing:
      [Some e] raises [e], [None] returns the empty template directory *)
  empty_match : option Exc
}.

(** ** The monad of the cell

    A computation takes the world and returns the world it leaves behind
    together with a value or the exception it raised.  Effects performed
    before an exception stay in the world, as in Python. *)
Definition Cell (A : Type) : Type := World → World * result A.

Definition cell_ret {A} (a : A) : Cell A := λ w, (w, Ok a).

Definition cell_raise {A} (e : Exc) : Cell A := λ w, (w, Raise e).

Definition cell_bind {A B} (c : Cell A) (k : A → Cell B) : Cell B :=
  λ w, match c w with
       | (w1, Ok a) => k a w1
       | (w1, Raise e) => (w1, Raise e)
       end.

Global Instance cell_mret : MRet Cell := @cell_ret.
Global Instance cell_mbind : MBind Cell := λ A B k c, cell_bind c k.

(** [for x in xs: body(x)]: the first exception ends the loop. *)
Fixpoint for_each {A} (xs : list A) (body : A → Cell unit) : Cell unit :=
  match xs with
  | [] => mret tt
  | x :: rest => body x;; for_each rest body
  end.

(** Python's [range(lo, hi)]; empty when [hi <= lo]. *)
Definition py_range (lo hi : Z) : list Z := seqZ lo (hi - lo).

(** Python's [str.isspace] on the ASCII range. *)
Definition is_whitespace (c : ascii) : bool :=
  let n := nat_of_ascii c in
  ((9 <=? n)%nat && (n <=? 13)%nat) || ((28 <=? n)%nat && (n <=? 32)%nat).

Fixpoint remove_whitespace (s : string) : string :=
  match s with
  | EmptyString => EmptyString
  | String c rest =>
      if is_whitespace c then remove_whitespace rest
      else String c (remove_whitespace rest)
  end.

(** ** The alignment client, [mmseqs2.MMSeqs2Runner] *)

Record MMSeqs2Runner : Type := {
  job : string;
  seq : string
}.

(** Modelled from the spec: the constructor of [mmseqs2.MMSeqs2Runner]
    (scripts/mmseqs2.py is not part of the sources at hand).  The notebook
    notes that the runner removes whitespace from the sequence it keeps. *)
Definition new_MMSeqs2Runner (jobname sequence : string) : MMSeqs2Runner :=
  {| job := jobname; seq := remove_whitespace sequence |}.

(** Modelled from the spec: the template policy of the alignment client.
    With no list or an empty list every template the service found is
    used; a non-empty list is an inclusion filter. *)
Definition select_templates (templates : option (list string))
    (found : list string) : list string :=
  match templates with
  | None | Some [] => found
  | Some wanted => filter (λ t, t ∈ wanted) found
  end.

(** Modelled from the spec: [MMSeqs2Runner.run_job] (scripts/mmseqs2.py is
    not part of the sources at hand).  It submits the sequence, and on
    success leaves the selected templates in the job's working directory
    and returns the alignment text and that directory's path.  A failure
    of the service is raised to the caller. *)
Definition run_job (env : Environment) (r : MMSeqs2Runner)
    (templates : option (list string)) : Cell (string * string) :=
  λ w,
    let call := {| fetch_job := job r; fetch_seq := seq r;
                   fetch_templates := templates |} in
    match service env (seq r) with
    | Raise e => (record (Fetch call (Raise e)) w, Raise e)
    | Ok reply =>
        let kept := select_templates templates (reply_templates reply) in
        let path := workdir env (job r) in
        match kept, templates, empty_match env with
        | [], Some (_ :: _), Some e =>
            (record (Fetch call (Raise e)) w, Raise e)
        | _, _, _ =>
            (record (Fetch call (Ok (reply_a3m reply, path)))
               (set_dirs (<[path := kept]> (dirs w)) w),
             Ok (reply_a3m reply, path))
        end
    end.

(** ** The prediction driver, [predict.predict_structure_from_templates] *)

(** Modelled from the spec: [predict.predict_structure_from_templates]
    (scripts/predict.py is not part of the sources at hand).  One forward
    pass of the network, then one structure file written at the output
    name, replacing whatever was there.  An exception of the network is
    raised to the caller and nothing is written. *)
Definition predict_structure_from_templates (env : Environment)
    (req : PredictionRequest) : Cell unit :=
  λ w,
    match forward_pass env w req with
    | Raise e => (record (Predict req (Raise e)) w, Raise e)
    | Ok pdb =>
        (record (Predict req (Ok tt))
           (set_files (<[req_outname req := pdb]> (files w)) w),
         Ok tt)
    end.

(** ** Python's [random.choice] *)

(** [random._randbelow(n)] returns an index below [n].  The index of the
    [k]-th call is [entropy env k], taken modulo [n] so that every
    function is a source of indices; how the interpreter gets the index
    from its generator's words is not modelled. *)
Definition randbelow (env : Environment) (n : nat) : Cell nat :=
  λ w, (tick_rng w, Ok (entropy env (rng_draws w) mod n)%nat).

(** [random.choice(seq)] is [seq[_randbelow(len(seq))]]; an empty sequence
    raises [IndexError]. *)
Definition random_choice {A} (env : Environment) (choices : list A) : Cell A :=
  match choices with
  | [] => cell_raise "IndexError: Cannot choose from an empty sequence"
  | x :: _ =>
      i ← randbelow env (length choices);
      mret (nth i choices x)
  end.

(** ** The sweep cell *)

(** The f-string [f"{ n_model }_{ nseq }.pdb"]. *)
Definition outname (n_model nseq : Z) : string :=
  pretty n_model +:+ "_" +:+ pretty nseq +:+ ".pdb".

(** The two AlphaFold networks that accept templates. *)
Definition template_models : list Z := [1; 2].

(** The body of the inner loop. *)
Definition sweep_body (env : Environment) (mmseqs2_runner : MMSeqs2Runner)
    (a3m_lines template_path : string) (nseq n_model : Z) : Cell unit :=
  model_id ← random_choice env template_models;
  predict_structure_from_templates env
    {| req_seq := seq mmseqs2_runner;
       req_outname := outname n_model nseq;
       req_a3m_lines := a3m_lines;
       req_template_path := template_path;
       req_model_id := model_id;
       req_max_msa_clusters := nseq `div` 2;
       req_max_extra_msa := nseq;
       req_max_recycles := 1 |}.

(** The cell from the construction of the runner to the end of the
    loops, with the constants the user is invited to edit (job name,
    sequence, template list, depth range and repetition count) as
    arguments.  The two lines that end the cell, [!zip] and
    [files.download], are not part of this definition. *)
Definition sweep_cell (env : Environment) (jobname sequence : string)
    (pdbs : list string) (lo hi reps : Z) : Cell unit :=
  let mmseqs2_runner := new_MMSeqs2Runner jobname sequence in
  '(a3m_lines, template_path) ← run_job env mmseqs2_runner (Some pdbs);
  for_each (py_range lo hi) (λ nseq,
    for_each (py_range 0 reps) (λ n_model,
      sweep_body env mmseqs2_runner a3m_lines template_path nseq n_model)).

(** The constants of the notebook. *)
Definition jobname : string := "T4_lysozyme".

Definition sequence : string :=
  "MNIFEMLRIDEGLRLKIYKDTEGYYTIGIGHLLTKSPSLNAAKSELDKAIGRNCNGVIT" +:+
  "KDEAEKLFNQDVDAAVRGILRNAKLKPVYDSLDAVRRCALINMVFQMGETGVAGFTNSL" +:+
  "RMLQQKRWDEAAVNLAKSRWYNQTPNRAKRVITTFRTGTWDAYKNL".

Definition pdbs : list string := ["6LB8_A"; "6LB8_C"; "4PK0_A"; "6FW2_A"].

Definition notebook_cell (env : Environment) : Cell unit :=
  sweep_cell env jobname sequence pdbs 16 34 5.

(** ** Vocabulary of the statements *)

(** The (depth, repetition) pairs in the order the nested loops visit
    them: depth in the outer loop, repetition in the inner one. *)
Definition plan (lo hi reps : Z) : list (Z * Z) :=
  nseq ← py_range lo hi; n_model ← py_range 0 reps; [(nseq, n_model)].

(** The network the [k]-th call of the generator selects. *)
Definition chosen_model (env : Environment) (k : nat) : Z :=
  nth (entropy env k mod 2)%nat template_models 1.

(** The request the loop body builds for a pair and a selected network. *)
Definition request_of (runner_seq a3m_lines template_path : string)
    (p : Z * Z) (model_id : Z) : PredictionRequest :=
  {| req_seq := runner_seq;
     req_outname := outname p.2 p.1;
     req_a3m_lines := a3m_lines;
     req_template_path := template_path;
     req_model_id := model_id;
     req_max_msa_clusters := p.1 `div` 2;
     req_max_extra_msa := p.1;
     req_max_recycles := 1 |}.

(** The loops, flattened over a list of pairs. *)
Definition sweep_loop (env : Environment) (r : MMSeqs2Runner)
    (a3m_lines template_path : string) (ps : list (Z * Z)) : Cell unit :=
  for_each ps (λ p, sweep_body env r a3m_lines template_path p.1 p.2).

(** The calls a run has made between two worlds, oldest first. *)
Definition events (w w' : World) : list Event :=
  drop (length (log w)) (log w').

(** The prediction requests among some events. *)
Definition requests (evs : list Event) : list PredictionRequest :=
  omap (λ ev, match ev with
              | Predict req _ => Some req
              | Fetch _ _ => None
              end) evs.

(** The alignment fetches among some events. *)
Definition fetches (evs : list Event) : list FetchCall :=
  omap (λ ev, match ev with
              | Fetch c _ => Some c
              | Predict _ _ => None
              end) evs.

Definition predict_event (x : PredictionRequest * result unit) : Event :=
  Predict x.1 x.2.

(** Big-step runs of the loop over the remaining pairs: the worlds before
    and after, the outcome, and the requests made on the way, each with
    its own outcome.  A failed forward pass ends the run with its
    exception. *)
Inductive sweep_run (env : Environment) (sq a3m path : string) :
    list (Z * Z) → World → World → result unit →
    list (PredictionRequest * result unit) → Prop :=
  | run_done w :
      sweep_run env sq a3m path [] w w (Ok tt) []
  | run_fail p ps w e :
      let req := request_of sq a3m path p (chosen_model env (rng_draws w)) in
      forward_pass env (tick_rng w) req = Raise e →
      sweep_run env sq a3m path (p :: ps) w
        (record (Predict req (Raise e)) (tick_rng w)) (Raise e)
        [(req, Raise e)]
  | run_step p ps w pdb w' r made :
      let req := request_of sq a3m path p (chosen_model env (rng_draws w)) in
      forward_pass env (tick_rng w) req = Ok pdb →
      sweep_run env sq a3m path ps
        (record (Predict req (Ok tt))
           (set_files (<[req_outname req := pdb]> (files w)) (tick_rng w)))
        w' r made →
      sweep_run env sq a3m path (p :: ps) w w' r ((req, Ok tt) :: made).

(** Whether a character occurs in a string. *)
Fixpoint has_char (c : ascii) (s : string) : bool :=
  match s with
  | EmptyString => false
  | String d rest => if decide (c = d) then true else has_char c rest
  end.

(** Characters that Python never prints for an integer. *)
Definition not_numeric (c : ascii) : Prop :=
  has_char c "-0123456789" = false.

(** Whether a string has a whitespace character. *)
Fixpoint contains_whitespace (s : string) : bool :=
  match s with
  | EmptyString => false
  | String c rest => is_whitespace c || contains_whitespace rest
  end.

(** "Half of the depth" read over the rationals, as Python's [depth / 2]. *)
Definition is_half_of (cap depth : Z) : Prop :=
  (inject_Z cap == inject_Z depth / 2)%Q.

(** The alignment fetch the cell makes. *)
Definition fetch_call (jobname sequence : string) (pdbs : list string)
    : FetchCall :=
  {| fetch_job := jobname;
     fetch_seq := seq (new_MMSeqs2Runner jobname sequence);
     fetch_templates := Some pdbs |}.

(** A world in which nothing has happened yet. *)
Definition fresh_world : World :=
  {| files := ∅; dirs := ∅; rng_draws := 0; log := [] |}.

(** A small environment to run the cell in: the service finds two
    templates, every forward pass succeeds, the generator returns
    0, 1, 0, 1, ... *)
Definition demo_env : Environment :=
  {| entropy := λ k, k;
     service := λ _, Ok {| reply_a3m := ">101";
                           reply_templates := ["6LB8_A"; "1XYZ_B"] |};
     forward_pass := λ _ req, Ok ("MODEL " +:+ pretty (req_model_id req));
     workdir := λ j, j +:+ "_env";
     empty_match := None |}.

(** As [demo_env], with another generator. *)
Definition other_draws_env : Environment :=
  {| entropy := λ k, (k * k + k / 3 + 1)%nat;
     service := service demo_env;
     forward_pass := forward_pass demo_env;
     workdir := workdir demo_env;
     empty_match := None |}.

(** As [demo_env], but the network fails on depth 17. *)
Definition failing_env : Environment :=
  {| entropy := entropy demo_env;
     service := service demo_env;
     forward_pass := λ w req,
       if decide (req_max_extra_msa req = 17) then Raise "ResourceExhausted"
       else forward_pass demo_env w req;
     workdir := workdir demo_env;
     empty_match := None |}.

(** As [demo_env], but the service is unreachable. *)
Definition offline_env : Environment :=
  {| entropy := entropy demo_env;
     service := λ _, Raise "ConnectionError";
     forward_pass := forward_pass demo_env;
     workdir := workdir demo_env;
     empty_match := None |}.

(** ** Counting over what the generator may return *)

(** The positions in [(1, 2)] that [random.choice] may pick for [k]
    predictions in a row: all vectors of [k] indices below 2.  Python
    promises that each call picks its index uniformly and independently,
    that is, that these [2 ^ k] vectors are equally likely. *)
Fixpoint index_vectors (k : nat) : list (list nat) :=
  match k with
  | O => [[]]
  | S k' =>
      (cons 0%nat <$> index_vectors k') ++ (cons 1%nat <$> index_vectors k')
  end.

(** The environment in which the calls of the generator made from world
    [w] on return the entries of [l], in order. *)
Definition with_draws (env : Environment) (w : World) (l : list nat)
    : Environment :=
  {| entropy := λ k, nth (k - rng_draws w) l 0%nat;
     service := service env;
     forward_pass := forward_pass env;
     workdir := workdir env;
     empty_match := empty_match env |}.

(** The [model_id]s of the predictions of one run of the cell. *)
Definition run_model_ids (env : Environment) (jobname sequence : string)
    (pdbs : list string) (lo hi reps : Z) (w : World) : list Z :=
  req_model_id <$>
    requests (events w (sweep_cell env jobname sequence pdbs lo hi reps w).1).

(** ** The rest of the cell *)

(** The two nested loops of the cell on their own, after the fetch. *)
Definition sweep_loops (env : Environment) (mmseqs2_runner : MMSeqs2Runner)
    (a3m_lines template_path : string) (lo hi reps : Z) : Cell unit :=
  for_each (py_range lo hi) (λ nseq,
    for_each (py_range 0 reps) (λ n_model,
      sweep_body env mmseqs2_runner a3m_lines template_path nseq n_model)).

Definition is_digit (c : ascii) : bool := has_char c "0123456789".

(** Whether [s] ends with [suffix]. *)
Fixpoint ends_with (suffix s : string) : bool :=
  if String.eqb s suffix then true
  else match s with
       | EmptyString => false
       | String _ rest => ends_with suffix rest
       end.

(** The shell pattern [*".pdb"] of the archive step
    [!zip -FSr "af2.zip" *".pdb"], on a name in the working directory: the
    star matches any run of characters other than [/], but no leading
    dot. *)
Definition matches_star_pdb (name : string) : bool :=
  match name with
  | EmptyString => false
  | String c _ =>
      negb (bool_decide (c = "."%char)) && negb (has_char "/" name) &&
      ends_with ".pdb" name
  end.

(** Whether a name would be read by a command as an option. *)
Definition looks_like_option (name : string) : bool :=
  match name with
  | String c _ => bool_decide (c = "-"%char)
  | EmptyString => false
  end.

(** ** Strings: output names are told apart by their numbers *)

Lemma pretty_N_char_numeric c x : not_numeric c → c ≠ pretty_N_char x.
Proof.
  unfold not_numeric. intros Hc ->.
  unfold pretty_N_char in Hc.
  repeat case_match; vm_compute in Hc; discriminate.
Qed.

Lemma has_char_pretty_N_go c x s :
  not_numeric c → has_char c (pretty_N_go x s) = has_char c s.
Proof.
  intros Hc. revert s.
  induction (N.lt_wf_0 x) as [x _ IH]; intros s.
  destruct (decide (x = 0)%N) as [->|Hx]; [by rewrite pretty_N_go_0|].
  rewrite pretty_N_go_step by lia.
  rewrite IH by (apply N.div_lt; lia). simpl.
  destruct (decide (c = pretty_N_char (x `mod` 10))) as [Heq|]; [|done].
  by destruct (pretty_N_char_numeric c (x `mod` 10)%N).
Qed.

Lemma has_char_pretty_Z c (z : Z) : not_numeric c → has_char c (pretty z) = false.
Proof.
  intros Hc.
  assert (∀ n : N, has_char c (pretty n) = false) as HN.
  { intros n. unfold pretty, pretty_N. case_decide.
    - simpl. case_decide as Heq; [|done]. subst c. vm_compute in Hc. discriminate.
    - by rewrite has_char_pretty_N_go. }
  destruct z as [|p|p]; unfold pretty, pretty_Z.
  - simpl. case_decide as Heq; [|done]. subst c. vm_compute in Hc. discriminate.
  - apply HN.
  - simpl. case_decide as Heq.
    + subst c. vm_compute in Hc. discriminate.
    + apply HN.
Qed.

(** Two strings cut at the first occurrence of a separator agree on both
    sides of it. *)
Lemma split_at_char c s1 s2 t1 t2 :
  has_char c s1 = false → has_char c s2 = false →
  s1 +:+ String c t1 = s2 +:+ String c t2 → s1 = s2 ∧ t1 = t2.
Proof.
  revert s2. induction s1 as [|a s1 IH]; intros [|b s2]; simpl;
    intros H1 H2 Heq.
  - by simplify_eq.
  - simplify_eq. by rewrite decide_True in H2.
  - simplify_eq. by rewrite decide_True in H1.
  - repeat case_decide; try done. simplify_eq.
    destruct (IH s2) as [-> ->]; done.
Qed.

Lemma outname_inj n d n' d' : outname n d = outname n' d' → n = n' ∧ d = d'.
Proof.
  unfold outname. intros Heq.
  apply (split_at_char "_") in Heq as [Hn Hd];
    [|by apply has_char_pretty_Z..].
  apply (split_at_char ".") in Hd as [Hd _];
    [|by apply has_char_pretty_Z..].
  split; by apply (inj pretty).
Qed.

(** ** The loops as runs *)

Section Runs.
Context (env : Environment) (r : MMSeqs2Runner) (a3m path : string).

Lemma sweep_body_unfold nseq n_model w :
  sweep_body env r a3m path nseq n_model w =
  predict_structure_from_templates env
    (request_of (seq r) a3m path (nseq, n_model)
       (chosen_model env (rng_draws w)))
    (tick_rng w).
Proof. reflexivity. Qed.

Lemma bind_run {A B} (c : Cell A) (k : A → Cell B) w :
  (c ≫= k) w = match c w with
               | (w1, Ok a) => k a w1
               | (w1, Raise e) => (w1, Raise e)
               end.
Proof. reflexivity. Qed.

Lemma for_each_app {A} (xs ys : list A) body w :
  for_each (xs ++ ys) body w = (for_each xs body;; for_each ys body) w.
Proof.
  revert w. induction xs as [|x xs IH]; intros w; simpl.
  { rewrite bind_run. done. }
  rewrite !bind_run.
  destruct (body x w) as [w1 [[]|e]]; [|done].
  rewrite <- bind_run.
  apply IH.
Qed.

(** The inner loop at one depth is the flat loop over that depth's
    pairs. *)
Lemma inner_loop_pairs nseq (ms : list Z) w :
  for_each ms (λ n_model, sweep_body env r a3m path nseq n_model) w =
  sweep_loop env r a3m path (n_model ← ms; [(nseq, n_model)]) w.
Proof.
  revert w. induction ms as [|m ms IH]; intros w; [done|].
  unfold sweep_loop in *. simpl. rewrite !bind_run.
  destruct (sweep_body env r a3m path nseq m w) as [w1 [[]|e]]; [|done].
  apply IH.
Qed.

(** The nested loops of the cell are the flat loop over [plan]. *)
Lemma nested_loops_plan lo hi reps w :
  for_each (py_range lo hi) (λ nseq,
    for_each (py_range 0 reps) (λ n_model,
      sweep_body env r a3m path nseq n_model)) w =
  sweep_loop env r a3m path (plan lo hi reps) w.
Proof.
  unfold plan. generalize (py_range lo hi) as ds. intros ds. revert w.
  induction ds as [|d ds IH]; intros w; [done|].
  cbn [mbind list_bind]. unfold sweep_loop in *.
  rewrite for_each_app. simpl. rewrite !bind_run.
  rewrite inner_loop_pairs. unfold sweep_loop.
  destruct (for_each _ _ w) as [w1 [[]|e]]; [|done].
  apply IH.
Qed.

(** Every execution of the flat loop is a run. *)
Lemma sweep_loop_run ps w :
  ∃ made, sweep_run env (seq r) a3m path ps w
            (sweep_loop env r a3m path ps w).1
            (sweep_loop env r a3m path ps w).2 made.
Proof.
  revert w. induction ps as [|[nseq n_model] ps IH]; intros w.
  - exists []. constructor.
  - unfold sweep_loop in *. simpl. rewrite !bind_run.
    rewrite sweep_body_unfold. unfold predict_structure_from_templates.
    destruct (forward_pass env (tick_rng w) _) as [pdb|e] eqn:Hfp.
    + edestruct IH as [made Hrun]. eexists. eapply run_step; eauto.
    + eexists. simpl. by eapply run_fail.
Qed.
End Runs.

(** ** What a run leaves behind *)

Section RunFacts.
Context (env : Environment) (sq a3m path : string).

Lemma run_log ps w w' res made :
  sweep_run env sq a3m path ps w w' res made →
  log w' = log w ++ (predict_event <$> made).
Proof.
  induction 1 as [w|p ps w e req Hfp|p ps w pdb w' res made req Hfp _ IH];
    simpl.
  - by rewrite app_nil_r.
  - done.
  - rewrite IH. simpl. by rewrite <- app_assoc.
Qed.

(** The loop only predicts: no alignment fetch, and the template
    directories are left alone. *)
Lemma run_dirs ps w w' res made :
  sweep_run env sq a3m path ps w w' res made → dirs w' = dirs w.
Proof. induction 1; simpl in *; auto. Qed.

(** One call of the generator per request. *)
Lemma run_draws ps w w' res made :
  sweep_run env sq a3m path ps w w' res made →
  rng_draws w' = (rng_draws w + length made)%nat.
Proof.
  induction 1 as [w|p ps w e req Hfp|p ps w pdb w' res made req Hfp _ IH];
    simpl in *; lia.
Qed.

(** The requests follow the pairs, one request per pair, in order, up to
    the point the run ended; the network of the [i]-th request is the
    one the [i]-th draw of the run selects. *)
Lemma run_requests ps w w' res made :
  sweep_run env sq a3m path ps w w' res made →
  made.*1 =
  zip_with (request_of sq a3m path) ps
    ((λ i, chosen_model env (rng_draws w + i)) <$> List.seq 0 (length made)).
Proof.
  induction 1 as [w|p ps w e req Hfp|p ps w pdb w' res made req Hfp _ IH].
  - done.
  - simpl. rewrite Nat.add_0_r. by destruct ps.
  - rewrite fmap_cons. cbn [length List.seq fmap list_fmap zip_with fst].
    rewrite Nat.add_0_r. f_equal. etrans; [exact IH|]. f_equal.
    rewrite <- fmap_S_seq, <- list_fmap_compose.
    apply list_fmap_ext. intros _ i _. simpl. f_equal. lia.
Qed.

Lemma run_length_le ps w w' res made :
  sweep_run env sq a3m path ps w w' res made → (length made ≤ length ps)%nat.
Proof. induction 1; simpl in *; lia. Qed.

(** A run that completes has served every pair, each successfully. *)
Lemma run_complete ps w w' made :
  sweep_run env sq a3m path ps w w' (Ok tt) made →
  length made = length ps ∧ Forall (λ x, x.2 = Ok tt) made.
Proof.
  intros Hrun. remember (Ok tt) as res eqn:Hres.
  induction Hrun as [w|p ps w e req Hfp
                    |p ps w pdb w' res made req Hfp _ IH]; simpl in *.
  - done.
  - done.
  - destruct (IH Hres) as [-> ?]. split; [done|]. by constructor.
Qed.

(** A request that raised is the last one of its run, and the run
    raised the same exception. *)
Lemma run_first_failure ps w w' res made i req e :
  sweep_run env sq a3m path ps w w' res made →
  made !! i = Some (req, Raise e) →
  res = Raise e ∧ length made = S i.
Proof.
  intros Hrun. revert i.
  induction Hrun as [w|p ps w e' req' Hfp
                    |p ps w pdb w' res made req' Hfp _ IH];
    intros [|i] Hi; simpl in *; simplify_eq; try done.
  destruct (IH _ Hi) as [-> ->]. done.
Qed.

(** A run that raises ends at the request whose forward pass raised,
    with that same exception. *)
Lemma run_raise ps w w' e made :
  sweep_run env sq a3m path ps w w' (Raise e) made →
  ∃ before req wk,
    made = before ++ [(req, Raise e)] ∧
    Forall (λ x, x.2 = Ok tt) before ∧
    forward_pass env wk req = Raise e.
Proof.
  intros Hrun. remember (Raise e) as res eqn:Hres.
  induction Hrun as [w|p ps w e' req Hfp
                    |p ps w pdb w' res made req Hfp _ IH]; try done.
  - simplify_eq. by exists [], req, (tick_rng w).
  - destruct (IH Hres) as (before & req' & wk & -> & Hok & Hwk).
    exists ((req, Ok tt) :: before), req', wk. split_and!; try done.
    by constructor.
Qed.

(** The files after a run: those before plus the output names of the
    requests that returned. *)
Lemma run_files_dom ps w w' res made :
  sweep_run env sq a3m path ps w w' res made →
  dom (files w') =
  dom (files w) ∪
  list_to_set (req_outname <$> (filter (λ x, returned x.2) made).*1).
Proof.
  induction 1 as [w|p ps w e req Hfp
                 |p ps w pdb w' res made req Hfp _ IH]; simpl in *.
  - set_solver.
  - set_solver.
  - rewrite IH, dom_insert_L. clear. set_solver.
Qed.

(** Files under other names are not touched. *)
Lemma run_files_other ps w w' res made name :
  sweep_run env sq a3m path ps w w' res made →
  name ∉ req_outname <$> made.*1 → files w' !! name = files w !! name.
Proof.
  induction 1 as [w|p ps w e req Hfp
                 |p ps w pdb w' res made req Hfp _ IH]; simpl in *.
  - done.
  - done.
  - intros Hname. rewrite not_elem_of_cons in Hname.
    destruct Hname as [Hne Hname].
    rewrite (IH Hname). by rewrite lookup_insert_ne.
Qed.
End RunFacts.

(** ** The order of the nested loops *)

Lemma py_range_length lo hi : length (py_range lo hi) = Z.to_nat (hi - lo).
Proof. apply length_seqZ. Qed.

Lemma elem_of_py_range lo hi d : d ∈ py_range lo hi ↔ lo ≤ d < hi.
Proof. unfold py_range. rewrite elem_of_seqZ. lia. Qed.

Lemma row_length (d : Z) (ms : list Z) :
  length (n_model ← ms; [(d, n_model)]) = length ms.
Proof.
  induction ms as [|m ms IH]; [done|]. rewrite bind_cons. simpl. by rewrite IH.
Qed.

Lemma row_lookup (d : Z) (ms : list Z) j m :
  ms !! j = Some m → (n_model ← ms; [(d, n_model)]) !! j = Some (d, m).
Proof.
  revert j. induction ms as [|m' ms IH]; intros j Hj; [done|].
  rewrite bind_cons. destruct j as [|j]; simpl in *.
  - by simplify_eq.
  - by apply IH.
Qed.

Lemma plan_length lo hi reps :
  length (plan lo hi reps) = (Z.to_nat (hi - lo) * Z.to_nat reps)%nat.
Proof.
  unfold plan. rewrite <- py_range_length.
  induction (py_range lo hi) as [|d ds IH]; [done|].
  rewrite bind_cons, length_app, IH, row_length, py_range_length.
  simpl. f_equal. f_equal. lia.
Qed.

Lemma elem_of_plan lo hi reps d m :
  (d, m) ∈ plan lo hi reps ↔ lo ≤ d < hi ∧ 0 ≤ m < reps.
Proof.
  unfold plan. rewrite list_elem_of_bind. split.
  - intros (d' & Hin & Hd'). apply list_elem_of_bind in Hin as (m' & Hin & Hm').
    apply list_elem_of_singleton in Hin. simplify_eq.
    apply elem_of_py_range in Hd', Hm'. lia.
  - intros [Hd Hm]. exists d. split; [|by apply elem_of_py_range].
    apply list_elem_of_bind. exists m. split; [set_solver|].
    apply elem_of_py_range. lia.
Qed.

(** The pair visited at position [i * R + j] is depth [lo + i],
    repetition [j]. *)
Lemma plan_lookup lo hi reps (i j : nat) :
  (i < Z.to_nat (hi - lo))%nat → (j < Z.to_nat reps)%nat →
  plan lo hi reps !! (i * Z.to_nat reps + j)%nat =
  Some (lo + Z.of_nat i, Z.of_nat j).
Proof.
  unfold plan, py_range. intros Hi Hj.
  assert (∀ d : Z, length (n_model ← seqZ 0 (reps - 0); [(d, n_model)]) =
               Z.to_nat reps) as Hrow.
  { intros d. rewrite row_length, length_seqZ. f_equal. lia. }
  assert (∀ d : Z, (n_model ← seqZ 0 (reps - 0); [(d, n_model)]) !! j =
               Some (d, Z.of_nat j)) as Hcol.
  { intros d. apply row_lookup. rewrite lookup_seqZ. lia. }
  remember (hi - lo) as n eqn:Hn. clear Hn. revert lo i Hi.
  induction (Z.to_nat n) as [|k IH] eqn:Hk in n |- *; intros lo i Hi; [lia|].
  rewrite (seqZ_cons lo n) by lia. rewrite bind_cons.
  destruct i as [|i].
  - simpl. rewrite lookup_app_l by (rewrite Hrow; lia).
    rewrite Hcol. do 2 f_equal. lia.
  - rewrite lookup_app_r by (rewrite Hrow; lia). rewrite Hrow.
    replace (S i * Z.to_nat reps + j - Z.to_nat reps)%nat
      with (i * Z.to_nat reps + j)%nat by lia.
    rewrite (IH (Z.pred n)) by lia. do 2 f_equal. lia.
Qed.

Lemma plan_NoDup lo hi reps : NoDup (plan lo hi reps).
Proof.
  unfold plan. apply NoDup_bind.
  - intros d1 d2 [d m] _ _ H1 H2.
    apply list_elem_of_bind in H1 as (? & ?%list_elem_of_singleton & _).
    apply list_elem_of_bind in H2 as (? & ?%list_elem_of_singleton & _).
    congruence.
  - intros d _. apply NoDup_bind.
    + intros m1 m2 [? ?] _ _ ?%list_elem_of_singleton ?%list_elem_of_singleton.
      congruence.
    + intros. apply NoDup_singleton.
    + apply NoDup_seqZ.
  - apply NoDup_seqZ.
Qed.

(** Within a sweep no two pairs share an output name. *)
Lemma plan_outnames_NoDup lo hi reps :
  NoDup ((λ p, outname p.2 p.1) <$> plan lo hi reps).
Proof.
  apply NoDup_fmap_2_strong; [|apply plan_NoDup].
  intros [d m] [d' m'] _ _ Heq. simpl in Heq.
  apply outname_inj in Heq as [-> ->]. done.
Qed.

(** ** The cell as one fetch followed by a run *)

Lemma requests_predict_events made :
  requests (predict_event <$> made) = made.*1.
Proof. induction made as [|[req o] made IH]; [done|]. simpl. by f_equal. Qed.

Lemma fetches_predict_events made : fetches (predict_event <$> made) = [].
Proof. induction made as [|[req o] made IH]; done. Qed.

Section CellFacts.
Context (env : Environment) (jobname sequence : string).
Context (pdbs : list string) (lo hi reps : Z).

Local Abbreviation runner := (new_MMSeqs2Runner jobname sequence).
Local Abbreviation cell := (sweep_cell env jobname sequence pdbs lo hi reps).
Local Abbreviation call := (fetch_call jobname sequence pdbs).

(** [run_job] records itself and touches neither the structure files
    nor the generator. *)
Lemma run_job_frame r templates w :
  let out := run_job env r templates w in
  log out.1 =
    log w ++ [Fetch {| fetch_job := job r; fetch_seq := seq r;
                       fetch_templates := templates |} out.2] ∧
  files out.1 = files w ∧ rng_draws out.1 = rng_draws w.
Proof.
  unfold run_job. destruct (service env (seq r)) as [reply|e]; [|done].
  destruct (select_templates _ _) as [|t kept];
    destruct templates as [[|t' wanted]|];
    destruct (empty_match env); done.
Qed.

Lemma sweep_cell_unfold w :
  cell w =
  match run_job env runner (Some pdbs) w with
  | (w1, Ok (a3m, path)) =>
      sweep_loop env runner a3m path (plan lo hi reps) w1
  | (w1, Raise e) => (w1, Raise e)
  end.
Proof.
  unfold cell, sweep_cell. rewrite bind_run.
  destruct (run_job _ _ _ w) as [w1 [[a3m path]|e]]; [|done].
  apply nested_loops_plan.
Qed.

(** Every execution of the cell: either the fetch raises and nothing
    else happens, or the fetch returns and the loops run on what it
    returned. *)
Lemma cell_run w :
  match (run_job env runner (Some pdbs) w).2 with
  | Raise e =>
      cell w = ((run_job env runner (Some pdbs) w).1, Raise e) ∧
      events w (cell w).1 = [Fetch call (Raise e)]
  | Ok (a3m, path) =>
      ∃ made,
        sweep_run env (seq runner) a3m path (plan lo hi reps)
          (run_job env runner (Some pdbs) w).1 (cell w).1 (cell w).2 made ∧
        events w (cell w).1 =
          Fetch call (Ok (a3m, path)) :: (predict_event <$> made)
  end.
Proof.
  rewrite sweep_cell_unfold.
  destruct (run_job_frame runner (Some pdbs) w) as (Hlog & _ & _).
  destruct (run_job env runner (Some pdbs) w) as [w1 [[a3m path]|e]];
    simpl in *.
  - destruct (sweep_loop_run env runner a3m path (plan lo hi reps) w1)
      as [made Hrun].
    exists made. split; [done|]. unfold events.
    rewrite (run_log _ _ _ _ _ _ _ _ _ Hrun), Hlog, <- app_assoc.
    by rewrite drop_app_length.
  - split; [done|]. unfold events. rewrite Hlog. by rewrite drop_app_length.
Qed.

(** The requests of the cell are built from the pairs of the plan, in
    order, with the runner's sequence and some alignment text and
    template path. *)
Lemma cell_requests w :
  ∃ a3m path n,
    (n ≤ length (plan lo hi reps))%nat ∧
    ((cell w).2 = Ok tt → n = length (plan lo hi reps)) ∧
    requests (events w (cell w).1) =
    zip_with (request_of (seq runner) a3m path) (plan lo hi reps)
      ((λ i, chosen_model env (rng_draws w + i)) <$> List.seq 0 n).
Proof.
  pose proof (cell_run w) as Hcell.
  destruct (run_job_frame runner (Some pdbs) w) as (_ & _ & Hrng).
  destruct (run_job env runner (Some pdbs) w) as [w1 [[a3m path]|e]];
    simpl in *.
  - destruct Hcell as (made & Hrun & ->). exists a3m, path, (length made).
    split_and!.
    + by eapply run_length_le.
    + intros Hok. rewrite Hok in Hrun. by apply run_complete in Hrun as [? _].
    + simpl. rewrite requests_predict_events, <- Hrng.
      by eapply run_requests.
  - destruct Hcell as [Hc ->]. exists "", "", 0%nat. rewrite Hc.
    split_and!; [lia|done|]. simpl. by destruct (plan lo hi reps).
Qed.

(** Each request of the cell comes from a pair of the plan. *)
Lemma cell_request_inv w req :
  req ∈ requests (events w (cell w).1) →
  ∃ a3m path nseq n_model m,
    lo ≤ nseq < hi ∧ 0 ≤ n_model < reps ∧ m ∈ template_models ∧
    req = request_of (seq runner) a3m path (nseq, n_model) m.
Proof.
  destruct (cell_requests w) as (a3m & path & n & _ & _ & ->).
  intros Hin. apply list_elem_of_lookup in Hin as [i Hi].
  apply lookup_zip_with_Some in Hi as ([nseq n_model] & m & -> & Hp & Hm).
  apply list_lookup_fmap_Some in Hm as (k & -> & _).
  exists a3m, path, nseq, n_model, (chosen_model env (rng_draws w + k)).
  apply list_elem_of_lookup_2, elem_of_plan in Hp as [? ?].
  split_and!; try done; try lia.
  unfold chosen_model, template_models.
  assert (entropy env (rng_draws w + k) mod 2 = 0 ∨
          entropy env (rng_draws w + k) mod 2 = 1)%nat as [-> | ->]
    by (pose proof (Nat.mod_upper_bound (entropy env (rng_draws w + k)) 2);
        lia);
    simpl; set_solver.
Qed.
End CellFacts.

(** ** Runs make the predictions of the plan *)

(** A run over a non-empty list of pairs starts with the request for the
    first pair, whatever the outcome. *)
Lemma run_starts env sq a3m path p ps w w' res made :
  sweep_run env sq a3m path (p :: ps) w w' res made →
  ∃ o rest,
    made = (request_of sq a3m path p (chosen_model env (rng_draws w)), o)
             :: rest.
Proof. inversion 1; subst; eauto. Qed.

Lemma plan_head lo hi reps :
  lo < hi → 0 < reps → ∃ rest, plan lo hi reps = (lo, 0) :: rest.
Proof.
  intros Hlo Hreps.
  pose proof (plan_lookup lo hi reps 0 0 ltac:(lia) ltac:(lia)) as Hp.
  simpl in Hp. rewrite Z.add_0_r in Hp.
  destruct (plan lo hi reps) as [|p rest]; [done|].
  simpl in Hp. simplify_eq. by exists rest.
Qed.

(** When the fetch has returned and the sweep has at least one pair, the
    first prediction is requested: depth [lo], repetition 0, with what
    the fetch returned. *)
Lemma cell_first_request env jobname sequence pdbs lo hi reps w a3m path :
  (run_job env (new_MMSeqs2Runner jobname sequence) (Some pdbs) w).2 =
    Ok (a3m, path) →
  lo < hi → 0 < reps →
  head (requests
          (events w (sweep_cell env jobname sequence pdbs lo hi reps w).1)) =
  Some (request_of (seq (new_MMSeqs2Runner jobname sequence)) a3m path
          (lo, 0) (chosen_model env (rng_draws w))).
Proof.
  intros Hfetch Hlo Hreps.
  pose proof (cell_run env jobname sequence pdbs lo hi reps w) as Hcell.
  destruct (run_job_frame env (new_MMSeqs2Runner jobname sequence)
              (Some pdbs) w) as (_ & _ & Hrng).
  rewrite Hfetch in Hcell. destruct Hcell as (made & Hrun & ->).
  destruct (plan_head lo hi reps Hlo Hreps) as [rest Hplan].
  rewrite Hplan in Hrun.
  apply run_starts in Hrun as (o & rest' & ->).
  simpl. by rewrite Hrng.
Qed.

(** A run of the cell that completes has made one request per pair. *)
Lemma cell_complete_count env jobname sequence pdbs lo hi reps w :
  (sweep_cell env jobname sequence pdbs lo hi reps w).2 = Ok tt →
  length (requests
            (events w (sweep_cell env jobname sequence pdbs lo hi reps w).1)) =
  (Z.to_nat (hi - lo) * Z.to_nat reps)%nat.
Proof.
  intros Hok.
  destruct (cell_requests env jobname sequence pdbs lo hi reps w)
    as (a3m & path & n & _ & Hn & ->).
  rewrite (Hn Hok), length_zip_with, length_fmap, length_seq, Nat.min_id.
  apply plan_length.
Qed.

(** The cell completes when the fetch returns and no forward pass
    raises. *)
Lemma cell_completes env jobname sequence pdbs lo hi reps w :
  (∀ w0 req, returned (forward_pass env w0 req)) →
  returned
    (run_job env (new_MMSeqs2Runner jobname sequence) (Some pdbs) w).2 →
  (sweep_cell env jobname sequence pdbs lo hi reps w).2 = Ok tt.
Proof.
  intros Hfp Hfetch.
  pose proof (cell_run env jobname sequence pdbs lo hi reps w) as Hcell.
  destruct (run_job env _ _ w).2 as [[a3m path]|e]; [|done].
  destruct Hcell as (made & Hrun & _).
  destruct (sweep_cell env jobname sequence pdbs lo hi reps w).2 as [[]|e];
    [done|].
  apply run_raise in Hrun as (before & req & wk & _ & _ & Hwk).
  specialize (Hfp wk req). by rewrite Hwk in Hfp.
Qed.

(** ** Sampling parameters *)

Lemma is_half_of_iff cap depth : is_half_of cap depth ↔ depth = 2 * cap.
Proof. unfold is_half_of, Qeq. simpl. lia. Qed.

Lemma floor_half_bounds d : 2 * (d `div` 2) ≤ d ≤ 2 * (d `div` 2) + 1.
Proof. pose proof (Z.div_mod d 2). pose proof (Z.mod_pos_bound d 2). lia. Qed.

Lemma floor_half_even d : d = 2 * (d `div` 2) ↔ Z.even d = true.
Proof.
  rewrite Z.even_spec. split.
  - intros H. by exists (d `div` 2).
  - intros [k ->]. rewrite (Z.mul_comm 2 k), Z.div_mul by done. lia.
Qed.

Lemma floor_half_odd d : Z.odd d = true → d = 2 * (d `div` 2) + 1.
Proof.
  rewrite Z.odd_spec. intros [k ->].
  rewrite (Z.mul_comm 2 k), Z.div_add_l by done.
  replace (1 `div` 2) with 0 by done. lia.
Qed.

(** C1 (amended).  Every prediction the cell makes, for any depth range,
    repetition count, environment and starting world, takes its sampling
    parameters from the current depth alone: [max_extra_msa] is the depth,
    [max_msa_clusters] is the depth divided by two and rounded down (so it
    is half the depth exactly when the depth is even), and [max_recycles]
    is the constant 1. *)
Theorem sampling_parameters_follow_depth env jobname sequence pdbs lo hi reps w :
  Forall (λ req, ∃ nseq,
            lo ≤ nseq < hi ∧
            req_max_extra_msa req = nseq ∧
            req_max_msa_clusters req = nseq `div` 2 ∧
            2 * req_max_msa_clusters req ≤ nseq
              ≤ 2 * req_max_msa_clusters req + 1 ∧
            (is_half_of (req_max_msa_clusters req) nseq ↔
             Z.even nseq = true) ∧
            req_max_recycles req = 1)
    (requests
       (events w (sweep_cell env jobname sequence pdbs lo hi reps w).1)).
Proof.
  apply Forall_forall. intros req Hreq.
  apply cell_request_inv in Hreq
    as (a3m & path & nseq & n_model & m & Hd & _ & _ & ->).
  exists nseq. simpl. pose proof (floor_half_bounds nseq).
  rewrite is_half_of_iff.
  split_and!; try done; try lia; apply floor_half_even.
Qed.

(** C1 as stated fails in the notebook's own range: the sixth prediction
    of the cell is the first one at depth 17, its cluster cap is 8, and 8
    is not half of 17. *)
Lemma half_depth_fails_at_depth_17 :
  requests (events fresh_world (notebook_cell demo_env fresh_world).1) !! 5%nat
    = Some (request_of (remove_whitespace sequence) ">101" "T4_lysozyme_env"
              (17, 0) 2) ∧
  ¬ is_half_of 8 17 ∧
  ¬ Forall (λ req, is_half_of (req_max_msa_clusters req)
                     (req_max_extra_msa req))
      (requests (events fresh_world (notebook_cell demo_env fresh_world).1)).
Proof.
  assert (¬ is_half_of 8 17) as Hhalf by (rewrite is_half_of_iff; lia).
  assert (requests (events fresh_world (notebook_cell demo_env fresh_world).1)
            !! 5%nat
          = Some (request_of (remove_whitespace sequence) ">101"
                    "T4_lysozyme_env" (17, 0) 2)) as H5
    by (vm_compute; reflexivity).
  split_and!; [done|done|].
  intros Hall. apply (Forall_lookup_1 _ _ _ _ Hall) in H5. by apply Hhalf.
Qed.

(** C9 (amended).  The cluster cap of every prediction of the cell is
    the floor of half its extra-alignment cap, which is the current
    depth: the extra-alignment cap is twice the cluster cap exactly when
    the depth is even, and twice the cluster cap plus one when it is odd.
    The cluster cap is at most the extra-alignment cap exactly for depths
    from -1 upwards, so for every non-negative depth.  A complete run
    makes N x R such predictions, and the first one, at depth [lo], is
    made as soon as the fetch has returned. *)
Theorem cluster_cap_is_floor_half_at_every_depth
    env jobname sequence pdbs lo hi reps w :
  let out := sweep_cell env jobname sequence pdbs lo hi reps w in
  let reqs := requests (events w out.1) in
  Forall (λ req,
            let c := req_max_msa_clusters req in
            let x := req_max_extra_msa req in
            lo ≤ x < hi ∧
            c = x `div` 2 ∧ 2 * c ≤ x < 2 * c + 2 ∧
            (x = 2 * c ↔ Z.even x = true) ∧
            (Z.odd x = true → x = 2 * c + 1) ∧
            (c ≤ x ↔ -1 ≤ x)) reqs ∧
  (out.2 = Ok tt →
   length reqs = (Z.to_nat (hi - lo) * Z.to_nat reps)%nat) ∧
  (returned
     (run_job env (new_MMSeqs2Runner jobname sequence) (Some pdbs) w).2 →
   lo < hi → 0 < reps →
   ∃ req, head reqs = Some req ∧
          req_max_extra_msa req = lo ∧
          req_max_msa_clusters req = lo `div` 2).
Proof.
  intros out reqs. split_and!.
  - apply Forall_forall. intros req Hreq.
    apply cell_request_inv in Hreq
      as (a3m & path & nseq & n_model & m & Hd & _ & _ & ->).
    simpl. pose proof (floor_half_bounds nseq).
    split_and!; try done; try lia;
      first [apply floor_half_even | apply floor_half_odd].
  - apply cell_complete_count.
  - intros Hfetch Hlo Hreps.
    destruct (run_job env _ _ w).2 as [[a3m path]|e] eqn:Hf; [|done].
    eexists. split; [by apply (cell_first_request _ _ _ _ _ _ _ _ a3m path)|].
    done.
Qed.

(** C9 as stated fails below depth -1: in a sweep over [range(-3, 2)]
    the first prediction has depth -3, and its cluster cap -2 is above
    its extra-alignment cap -3. *)
Lemma cluster_cap_above_extra_at_depth_minus_3 :
  let reqs :=
    requests
      (events fresh_world
         (sweep_cell demo_env jobname sequence pdbs (-3) 2 1 fresh_world).1) in
  reqs !! 0%nat =
    Some (request_of (remove_whitespace sequence) ">101" "T4_lysozyme_env"
            (-3, 0) 1) ∧
  (-3) `div` 2 = -2 ∧
  ¬ Forall (λ req, req_max_msa_clusters req ≤ req_max_extra_msa req) reqs.
Proof.
  intros reqs.
  assert (reqs !! 0%nat =
          Some (request_of (remove_whitespace sequence) ">101"
                  "T4_lysozyme_env" (-3, 0) 1)) as H0
    by (vm_compute; reflexivity).
  split_and!; [done|done|].
  intros Hall. apply (Forall_lookup_1 _ _ _ _ Hall) in H0. simpl in H0.
  by vm_compute in H0.
Qed.

(** C9 (amended) on the notebook's constants: 90 predictions, each with
    its cluster cap half its extra-alignment cap rounded down, and at
    most that cap. *)
Lemma cluster_cap_is_floor_half_notebook_run :
  let out := sweep_cell demo_env jobname sequence pdbs 16 34 5 fresh_world in
  let reqs := requests (events fresh_world out.1) in
  out.2 = Ok tt ∧
  length reqs = 90%nat ∧
  Forall (λ req, req_max_msa_clusters req = req_max_extra_msa req `div` 2 ∧
                 req_max_msa_clusters req ≤ req_max_extra_msa req) reqs.
Proof.
  intros out reqs.
  assert (out.2 = Ok tt) as Hok by (vm_compute; reflexivity).
  destruct (cluster_cap_is_floor_half_at_every_depth
              demo_env jobname sequence pdbs 16 34 5 fresh_world)
    as (Hall & Hlen & _).
  split_and!; [exact Hok|etrans; [exact (Hlen Hok)|reflexivity]|].
  eapply Forall_impl; [exact Hall|].
  intros req (Hx & Hc & _ & _ & _ & Hle). split; [exact Hc|].
  apply Hle. lia.
Defined.

(** ** The network-variant selector *)

Lemma random_choice_template_models env w :
  random_choice env template_models w =
  (tick_rng w, Ok (chosen_model env (rng_draws w))).
Proof. reflexivity. Qed.

Lemma zip_request_model_ids sq a3m path (ps : list (Z * Z)) (ms : list Z) :
  (length ms ≤ length ps)%nat →
  req_model_id <$> zip_with (request_of sq a3m path) ps ms = ms.
Proof.
  revert ms. induction ps as [|p ps IH]; intros [|m ms] Hlen;
    simpl in *; try done; try lia.
  f_equal. apply IH. lia.
Qed.

Lemma index_vectors_length k : length (index_vectors k) = (2 ^ k)%nat.
Proof.
  induction k as [|k IH]; [done|].
  cbn [index_vectors]. rewrite length_app, !length_fmap, IH.
  rewrite Nat.pow_succ_r'. lia.
Qed.

Lemma index_vectors_elem k l :
  l ∈ index_vectors k → length l = k ∧ Forall (λ b, b < 2)%nat l.
Proof.
  revert l. induction k as [|k IH]; intros l Hl.
  - apply list_elem_of_singleton in Hl as ->. by split.
  - cbn [index_vectors] in Hl.
    apply elem_of_app in Hl as [Hl|Hl];
      apply list_elem_of_fmap in Hl as (l' & -> & Hl');
      destruct (IH l' Hl') as [Hlen Hall];
      (split; [by rewrite <- Hlen|constructor; [lia|done]]).
Qed.

Lemma filter_fmap_cons {A} (P : list A → Prop) `{!∀ l, Decision (P l)}
    (b : A) (ls : list (list A)) :
  filter P (cons b <$> ls) = cons b <$> filter (λ l, P (b :: l)) ls.
Proof.
  induction ls as [|l ls IH]; [done|].
  rewrite fmap_cons, !filter_cons, IH. by destruct (decide (P (b :: l))).
Qed.

Lemma filter_ext_elem {A} (P Q : A → Prop)
    `{!∀ x, Decision (P x), !∀ x, Decision (Q x)} (l : list A) :
  (∀ x, x ∈ l → P x ↔ Q x) → filter P l = filter Q l.
Proof.
  induction l as [|x l IH]; intros HPQ; [done|].
  rewrite !filter_cons, IH by (intros y Hy; apply HPQ; by right).
  destruct (decide (P x)) as [HP|HP], (decide (Q x)) as [HQ|HQ]; try done.
  - destruct HQ. apply HPQ; [by left|done].
  - destruct HP. apply HPQ; [by left|done].
Qed.

Lemma filter_all {A} (P : A → Prop) `{!∀ x, Decision (P x)} (l : list A) :
  (∀ x, P x) → filter P l = l.
Proof.
  intros HP. induction l as [|x l IH]; [done|].
  by rewrite filter_cons_True, IH.
Qed.

Lemma filter_none {A} (P : A → Prop) `{!∀ x, Decision (P x)} (l : list A) :
  (∀ x, ¬ P x) → filter P l = [].
Proof.
  intros HP. induction l as [|x l IH]; [done|].
  by rewrite filter_cons_False.
Qed.

(** Of the [2 ^ k] index vectors, half have a given index at a given
    position. *)
Lemma index_vectors_count k i b :
  (i < k)%nat → (b < 2)%nat →
  length (filter (λ l, l !! i = Some b) (index_vectors k)) = (2 ^ (k - 1))%nat.
Proof.
  revert i. induction k as [|k IH]; intros i Hi Hb; [lia|].
  cbn [index_vectors]. rewrite filter_app, length_app, !filter_fmap_cons.
  rewrite !length_fmap. destruct i as [|i]; simpl.
  - rewrite Nat.sub_0_r.
    assert (b = 0 ∨ b = 1)%nat as [-> | ->] by lia.
    + rewrite filter_all by done. rewrite filter_none by done.
      rewrite index_vectors_length. simpl. lia.
    + rewrite filter_none by done. rewrite filter_all by done.
      rewrite index_vectors_length. simpl. lia.
  - rewrite Nat.sub_0_r, !IH by lia.
    destruct k as [|k]; [lia|]. simpl. rewrite Nat.sub_0_r. lia.
Qed.

(** When no call fails, the networks of a run are the entries of
    [(1, 2)] at the indices the generator returned. *)
Lemma run_model_ids_with_draws env jobname sequence pdbs lo hi reps w l :
  (∀ w0 req, returned (forward_pass env w0 req)) →
  returned
    (run_job env (new_MMSeqs2Runner jobname sequence) (Some pdbs) w).2 →
  length l = (Z.to_nat (hi - lo) * Z.to_nat reps)%nat →
  Forall (λ b, b < 2)%nat l →
  run_model_ids (with_draws env w l) jobname sequence pdbs lo hi reps w =
  (λ b, nth b template_models 1) <$> l.
Proof.
  intros Hfp Hfetch Hlen Hall. unfold run_model_ids.
  pose proof (cell_completes (with_draws env w l) jobname sequence pdbs
                lo hi reps w Hfp Hfetch) as Hok.
  destruct (cell_requests (with_draws env w l) jobname sequence pdbs
              lo hi reps w) as (a3m & path & n & _ & Hn & ->).
  rewrite (Hn Hok), plan_length, <- Hlen.
  rewrite zip_request_model_ids
    by (rewrite length_fmap, length_seq, plan_length; lia).
  apply list_eq. intros i. rewrite !list_lookup_fmap.
  destruct (l !! i) as [b|] eqn:Hb.
  - rewrite lookup_seq_lt by (by eapply lookup_lt_Some).
    change (Some (chosen_model (with_draws env w l) (rng_draws w + (0 + i))) =
            Some (nth b template_models 1)).
    f_equal. unfold chosen_model. cbn [entropy with_draws].
    replace (rng_draws w + (0 + i) - rng_draws w)%nat with i by lia.
    rewrite (nth_lookup_Some _ _ _ _ Hb).
    rewrite Forall_lookup in Hall. specialize (Hall _ _ Hb).
    by rewrite Nat.mod_small.
  - rewrite lookup_seq_ge; [done|]. by apply lookup_ge_None.
Qed.

(** C4.  The [model_id] of every prediction of the cell is 1 or 2, the
    two networks that accept templates, and nothing else is ever passed:
    it is the entry of [(1, 2)] at the index the generator returns for
    that prediction.  A complete run makes N x R such choices, and the
    first one is made as soon as the fetch has returned.  The choice is
    uniform in the sense of counting: when no call fails, each of the
    2^(N x R) equally likely vectors of indices gives the run whose
    networks are the entries at these indices, and for every prediction
    and each of the two networks exactly half of the vectors give that
    prediction that network. *)
Theorem model_id_is_uniform_over_template_models
    env jobname sequence pdbs lo hi reps w :
  let out := sweep_cell env jobname sequence pdbs lo hi reps w in
  let reqs := requests (events w out.1) in
  let fetch :=
    run_job env (new_MMSeqs2Runner jobname sequence) (Some pdbs) w in
  let k := (Z.to_nat (hi - lo) * Z.to_nat reps)%nat in
  Forall (λ req, req_model_id req = 1 ∨ req_model_id req = 2) reqs ∧
  req_model_id <$> reqs =
    (λ i, nth (entropy env (rng_draws w + i) mod 2)%nat template_models 1)
      <$> List.seq 0 (length reqs) ∧
  (out.2 = Ok tt → length reqs = k) ∧
  (returned fetch.2 → lo < hi → 0 < reps →
   ∃ req, head reqs = Some req ∧
          req_model_id req =
            nth (entropy env (rng_draws w) mod 2)%nat template_models 1) ∧
  ((∀ w0 req, returned (forward_pass env w0 req)) → returned fetch.2 →
   length (index_vectors k) = (2 ^ k)%nat ∧
   (∀ l, l ∈ index_vectors k →
         run_model_ids (with_draws env w l) jobname sequence pdbs lo hi reps w
         = (λ b, nth b template_models 1) <$> l) ∧
   (∀ i v, (i < k)%nat → v ∈ template_models →
         length
           (filter (λ l, run_model_ids (with_draws env w l) jobname sequence
                           pdbs lo hi reps w !! i = Some v)
              (index_vectors k)) = (2 ^ (k - 1))%nat)).
Proof.
  intros out reqs fetch k.
  assert (∀ l, (∀ w0 req, returned (forward_pass env w0 req)) →
               returned fetch.2 → l ∈ index_vectors k →
               run_model_ids (with_draws env w l) jobname sequence pdbs
                 lo hi reps w = (λ b, nth b template_models 1) <$> l) as Hids.
  { intros l Hfp Hfetch Hl. apply index_vectors_elem in Hl as [Hlen Hall].
    by apply run_model_ids_with_draws. }
  split_and!.
  - apply Forall_forall. intros req Hreq.
    apply cell_request_inv in Hreq
      as (a3m & path & nseq & n_model & m & _ & _ & Hm & ->).
    simpl. unfold template_models in Hm. set_solver.
  - subst reqs out.
    destruct (cell_requests env jobname sequence pdbs lo hi reps w)
      as (a3m & path & n & Hn & _ & ->).
    rewrite zip_request_model_ids by (by rewrite length_fmap, length_seq).
    rewrite length_zip_with, length_fmap, length_seq.
    by rewrite Nat.min_r by done.
  - apply cell_complete_count.
  - intros Hfetch Hlo Hreps.
    destruct fetch.2 as [[a3m path]|e] eqn:Hf; [|done].
    eexists. split; [by apply (cell_first_request _ _ _ _ _ _ _ _ a3m path)|].
    done.
  - intros Hfp Hfetch. split_and!.
    + apply index_vectors_length.
    + intros l Hl. by apply Hids.
    + intros i v Hi Hv.
      set (b := if decide (v = 1) then 0%nat else 1%nat).
      rewrite (filter_ext_elem _ (λ l, l !! i = Some b)).
      { apply index_vectors_count; [done|]. unfold b. case_decide; lia. }
      intros l Hl. rewrite (Hids l Hfp Hfetch Hl), list_lookup_fmap.
      apply index_vectors_elem in Hl as [Hlen Hall].
      destruct (l !! i) as [b'|] eqn:Hb'; simpl; [|by split].
      rewrite Forall_lookup in Hall. specialize (Hall _ _ Hb').
      unfold template_models in *. unfold b.
      assert (b' = 0 ∨ b' = 1)%nat as [-> | ->] by lia; simpl;
        case_decide; split; intros [=]; subst; try done.
      set_solver.
Qed.

(** C4 in the demonstration environment.  On the notebook's constants
    the 90 predictions all use network 1 or 2.  For a sweep of two
    predictions, the index vector (1, 0) gives networks (2, 1), and two
    of the four index vectors give the first prediction network 1. *)
Lemma model_id_is_uniform_over_template_models_demo :
  let out := sweep_cell demo_env jobname sequence pdbs 16 34 5 fresh_world in
  let reqs := requests (events fresh_world out.1) in
  let ids l :=
    run_model_ids (with_draws demo_env fresh_world l) jobname sequence pdbs
      16 17 2 fresh_world in
  (out.2 = Ok tt ∧ length reqs = 90%nat ∧
   Forall (λ req, req_model_id req = 1 ∨ req_model_id req = 2) reqs) ∧
  ids [1; 0]%nat = [2; 1] ∧
  length (filter (λ l, ids l !! 0%nat = Some 1) (index_vectors 2)) = 2%nat.
Proof.
  intros out reqs ids.
  assert (out.2 = Ok tt) as Hok by (vm_compute; reflexivity).
  destruct (model_id_is_uniform_over_template_models
              demo_env jobname sequence pdbs 16 34 5 fresh_world)
    as (Hall & _ & Hlen & _).
  destruct (model_id_is_uniform_over_template_models
              demo_env jobname sequence pdbs 16 17 2 fresh_world)
    as (_ & _ & _ & _ & Hcount).
  destruct Hcount as (_ & Hids & Hhalf).
  { intros w0 req. exact I. }
  { vm_compute. exact I. }
  split_and!.
  - exact Hok.
  - etrans; [exact (Hlen Hok)|reflexivity].
  - exact Hall.
  - apply (Hids [1; 0]%nat). cbn. right. right. by left.
  - apply (Hhalf 0%nat 1); [cbn; lia|]. unfold template_models. by left.
Defined.

(** ** The sequence argument *)

Lemma remove_whitespace_clean s :
  contains_whitespace (remove_whitespace s) = false.
Proof.
  induction s as [|c s IH]; [done|]. simpl.
  destruct (is_whitespace c) eqn:Hc; [done|]. simpl. by rewrite Hc.
Qed.

Lemma remove_whitespace_id s :
  contains_whitespace s = false → remove_whitespace s = s.
Proof.
  induction s as [|c s IH]; [done|]. simpl.
  destruct (is_whitespace c); [done|]. simpl. intros Hs. by rewrite IH.
Qed.

Lemma remove_whitespace_changes s :
  contains_whitespace s = true → remove_whitespace s ≠ s.
Proof.
  intros Hs Heq. pose proof (remove_whitespace_clean s) as Hclean.
  rewrite Heq in Hclean. congruence.
Qed.

(** C10.  Every prediction of the cell receives the same sequence: the
    one the runner object keeps, not the caller's string.  The runner
    keeps the caller's sequence with its whitespace removed, so what the
    predictions receive has no whitespace and is not the caller's string
    whenever that string has some.  A complete run passes it to all
    N x R predictions, and the first one receives it as soon as the fetch
    has returned. *)
Theorem predictions_receive_the_runner_sequence
    env jobname sequence pdbs lo hi reps w :
  let out := sweep_cell env jobname sequence pdbs lo hi reps w in
  let reqs := requests (events w out.1) in
  let mmseqs2_runner := new_MMSeqs2Runner jobname sequence in
  Forall (λ req, req_seq req = seq mmseqs2_runner) reqs ∧
  seq mmseqs2_runner = remove_whitespace sequence ∧
  contains_whitespace (seq mmseqs2_runner) = false ∧
  (contains_whitespace sequence = true →
   Forall (λ req, req_seq req ≠ sequence) reqs) ∧
  (out.2 = Ok tt →
   length reqs = (Z.to_nat (hi - lo) * Z.to_nat reps)%nat) ∧
  (returned (run_job env mmseqs2_runner (Some pdbs) w).2 →
   lo < hi → 0 < reps →
   ∃ req, head reqs = Some req ∧ req_seq req = seq mmseqs2_runner).
Proof.
  intros out reqs mmseqs2_runner.
  assert (Forall (λ req, req_seq req = seq mmseqs2_runner) reqs) as Hall.
  { apply Forall_forall. intros req Hreq.
    by apply cell_request_inv in Hreq
      as (a3m & path & nseq & n_model & m & _ & _ & _ & ->). }
  split_and!.
  - done.
  - done.
  - apply remove_whitespace_clean.
  - intros Hws. eapply Forall_impl; [exact Hall|].
    intros req -> Heq. by apply (remove_whitespace_changes sequence).
  - apply cell_complete_count.
  - intros Hfetch Hlo Hreps.
    destruct (run_job env _ _ w).2 as [[a3m path]|e] eqn:Hf; [|done].
    eexists. split; [by apply (cell_first_request _ _ _ _ _ _ _ _ a3m path)|].
    done.
Qed.

(** C10 for a sequence typed with a blank in it: the 90 predictions of
    the cell all receive the sequence without the blank. *)
Lemma predictions_receive_the_runner_sequence_blank :
  let out :=
    sweep_cell demo_env jobname "MNIF EMLR" pdbs 16 34 5 fresh_world in
  let reqs := requests (events fresh_world out.1) in
  out.2 = Ok tt ∧ length reqs = 90%nat ∧
  Forall (λ req, req_seq req = "MNIFEMLR") reqs ∧
  Forall (λ req, req_seq req ≠ "MNIF EMLR") reqs.
Proof.
  intros out reqs.
  assert (out.2 = Ok tt) as Hok by (vm_compute; reflexivity).
  destruct (predictions_receive_the_runner_sequence
              demo_env jobname "MNIF EMLR" pdbs 16 34 5 fresh_world)
    as (Hall & _ & _ & Hraw & Hlen & _).
  split_and!.
  - exact Hok.
  - etrans; [exact (Hlen Hok)|reflexivity].
  - exact Hall.
  - apply Hraw. reflexivity.
Defined.

Example runner_strips_whitespace :
  seq (new_MMSeqs2Runner "job" ("MNIF EMLR" +:+ String "010"%char "")) =
    "MNIFEMLR" ∧
  seq (new_MMSeqs2Runner jobname sequence) = sequence.
Proof. split; reflexivity. Qed.

(** ** Counting and ordering the predictions *)

(** What a request takes from its pair alone does not depend on the
    draws. *)
Lemma zip_request_pair_part {B} (g : PredictionRequest → B) (h : Z * Z → B)
    sq a3m path (ps : list (Z * Z)) (ms : list Z) :
  (∀ p m, g (request_of sq a3m path p m) = h p) →
  g <$> zip_with (request_of sq a3m path) ps ms = h <$> take (length ms) ps.
Proof.
  intros Hg. revert ms. induction ps as [|p ps IH]; intros [|m ms]; simpl;
    try done.
  by rewrite Hg, IH.
Qed.

Lemma cell_outnames env jobname sequence pdbs lo hi reps w :
  ∃ n,
    ((sweep_cell env jobname sequence pdbs lo hi reps w).2 = Ok tt →
     n = length (plan lo hi reps)) ∧
    (λ req, (req_max_extra_msa req, req_outname req)) <$>
      requests
        (events w (sweep_cell env jobname sequence pdbs lo hi reps w).1) =
    (λ p, (p.1, outname p.2 p.1)) <$> take n (plan lo hi reps).
Proof.
  destruct (cell_requests env jobname sequence pdbs lo hi reps w)
    as (a3m & path & n & Hn & Hok & ->).
  exists n. split; [done|].
  rewrite (zip_request_pair_part _ (λ p, (p.1, outname p.2 p.1))) by done.
  by rewrite length_fmap, length_seq.
Qed.

Lemma cell_outnames_NoDup env jobname sequence pdbs lo hi reps w :
  NoDup (req_outname <$>
           requests
             (events w (sweep_cell env jobname sequence pdbs lo hi reps w).1)).
Proof.
  destruct (cell_outnames env jobname sequence pdbs lo hi reps w)
    as (n & _ & Heq).
  apply (f_equal (fmap snd)) in Heq.
  rewrite <- !list_fmap_compose in Heq.
  change (snd ∘ _) with req_outname in Heq at 1. rewrite Heq.
  change (snd ∘ _) with (λ p : Z * Z, outname p.2 p.1).
  rewrite fmap_take.
  eapply sublist_NoDup; [apply plan_outnames_NoDup|apply sublist_take].
Qed.

(** C2.  A run of the cell that completes makes exactly N x R
    predictions, where N is the number of depths in [range(lo, hi)] and R
    the repetition count: one for each (depth, repetition) pair, each
    returning before the next starts, in the order of the nested loops.
    The prediction at position [i * R + j] is the one for depth [lo + i]
    and repetition [j]. *)
Theorem full_sweep_makes_N_times_R_predictions
    env jobname sequence pdbs lo hi reps w :
  (sweep_cell env jobname sequence pdbs lo hi reps w).2 = Ok tt →
  let evs := events w (sweep_cell env jobname sequence pdbs lo hi reps w).1 in
  let N := Z.to_nat (hi - lo) in
  let R := Z.to_nat reps in
  length (py_range lo hi) = N ∧ NoDup (py_range lo hi) ∧
  length (requests evs) = (N * R)%nat ∧
  (λ req, (req_max_extra_msa req, req_outname req)) <$> requests evs =
    (λ p, (p.1, outname p.2 p.1)) <$> plan lo hi reps ∧
  NoDup (plan lo hi reps) ∧
  (∀ i j : nat, (i < N)%nat → (j < R)%nat →
     ∃ req, requests evs !! (i * R + j)%nat = Some req ∧
            req_max_extra_msa req = lo + Z.of_nat i ∧
            req_outname req = outname (Z.of_nat j) (lo + Z.of_nat i)) ∧
  tail evs = (λ req, Predict req (Ok tt)) <$> requests evs.
Proof.
  intros Hok evs N R.
  destruct (cell_outnames env jobname sequence pdbs lo hi reps w)
    as (n & Hn & Heq).
  rewrite (Hn Hok), firstn_all in Heq. fold evs in Heq.
  assert (length (requests evs) = (N * R)%nat) as Hlen.
  { unfold N, R. rewrite <- plan_length.
    rewrite <- (length_fmap (λ p, (p.1, outname p.2 p.1)) (plan lo hi reps)).
    by rewrite <- Heq, length_fmap. }
  split_and!; try done.
  - apply py_range_length.
  - apply NoDup_seqZ.
  - apply plan_NoDup.
  - intros i j Hi Hj.
    pose proof (plan_lookup lo hi reps i j Hi Hj) as Hp.
    apply (f_equal (λ l, l !! (i * R + j)%nat)) in Heq.
    rewrite !list_lookup_fmap in Heq. fold R in Hp. rewrite Hp in Heq.
    destruct (requests evs !! (i * R + j)%nat) as [req|]; [|done].
    exists req. simpl in Heq. by simplify_eq.
  - pose proof (cell_run env jobname sequence pdbs lo hi reps w) as Hcell.
    destruct (run_job env _ _ w).2 as [[a3m path]|e].
    + destruct Hcell as (made & Hrun & Hevs). rewrite Hok in Hrun.
      apply run_complete in Hrun as [_ Hall]. subst evs. rewrite Hevs.
      simpl. rewrite requests_predict_events, <- list_fmap_compose.
      apply Forall_fmap_ext_1. eapply Forall_impl; [exact Hall|].
      intros [req o] Ho. simpl in *. by subst o.
    + destruct Hcell as [Hc _]. rewrite Hc in Hok. done.
Qed.

(** C2, run in the demonstration environment on the notebook's own
    constants: 18 depths, 5 repetitions, 90 predictions. *)
Lemma full_sweep_makes_N_times_R_predictions_notebook :
  let out := sweep_cell demo_env jobname sequence pdbs 16 34 5 fresh_world in
  out.2 = Ok tt ∧
  length (requests (events fresh_world out.1)) = 90%nat ∧
  (λ req, (req_max_extra_msa req, req_outname req)) <$>
    requests (events fresh_world out.1) =
  (λ p, (p.1, outname p.2 p.1)) <$> plan 16 34 5.
Proof.
  intros out.
  assert (out.2 = Ok tt) as Hok by (vm_compute; reflexivity).
  destruct (full_sweep_makes_N_times_R_predictions
              demo_env jobname sequence pdbs 16 34 5 fresh_world Hok)
    as (_ & _ & Hlen & Hreqs & _).
  split_and!; [exact Hok| |exact Hreqs].
  etrans; [exact Hlen|reflexivity].
Defined.

(** ** One fetch, reused by every prediction *)

(** C6.  Whatever happens, the calls of one run of the cell are a single
    alignment fetch followed by predictions only.  When the fetch returns
    an alignment text and a template path, every prediction receives
    exactly these two values and the loops leave the template directory
    as the fetch left it; the first prediction is made then, and a run
    that completes has passed the two values to all N x R predictions.
    When the fetch raises there is no prediction. *)
Theorem alignment_fetched_once_and_passed_on
    env jobname sequence pdbs lo hi reps w :
  let out := sweep_cell env jobname sequence pdbs lo hi reps w in
  let fetch :=
    run_job env (new_MMSeqs2Runner jobname sequence) (Some pdbs) w in
  let evs := events w out.1 in
  evs = Fetch (fetch_call jobname sequence pdbs) fetch.2
          :: (tail evs) ∧
  fetches evs = [fetch_call jobname sequence pdbs] ∧
  fetches (tail evs) = [] ∧
  match fetch.2 with
  | Ok (a3m_lines, template_path) =>
      Forall (λ req, req_a3m_lines req = a3m_lines ∧
                     req_template_path req = template_path)
        (requests evs) ∧
      dirs out.1 = dirs fetch.1 ∧
      (out.2 = Ok tt →
       length (requests evs) = (Z.to_nat (hi - lo) * Z.to_nat reps)%nat) ∧
      (lo < hi → 0 < reps →
       ∃ req, evs !! 1%nat = Some (Predict req (Ok tt)) ∨
              (∃ e, evs !! 1%nat = Some (Predict req (Raise e)) ∧
                    out.2 = Raise e)) ∧
      (lo < hi → 0 < reps →
       ∃ req, head (requests evs) = Some req ∧
              req_a3m_lines req = a3m_lines ∧
              req_template_path req = template_path ∧
              req_max_extra_msa req = lo)
  | Raise e => requests evs = [] ∧ out.2 = Raise e
  end.
Proof.
  intros out fetch evs.
  pose proof (cell_run env jobname sequence pdbs lo hi reps w) as Hcell.
  pose proof (cell_first_request env jobname sequence pdbs lo hi reps w)
    as Hfirst.
  fold fetch in Hcell, Hfirst. fold out in Hcell, Hfirst.
  fold evs in Hcell, Hfirst.
  destruct fetch.2 as [[a3m path]|e].
  - destruct Hcell as (made & Hrun & Hevs). rewrite Hevs. simpl.
    rewrite fetches_predict_events, requests_predict_events.
    split_and!; try done.
    + rewrite (run_requests _ _ _ _ _ _ _ _ _ Hrun).
      apply Forall_forall. intros req Hin.
      apply list_elem_of_lookup in Hin as [i Hi].
      by apply lookup_zip_with_Some in Hi as (p & m & -> & _ & _).
    + by eapply run_dirs.
    + intros Hok. rewrite Hok in Hrun.
      apply run_complete in Hrun as [Hlen _].
      by rewrite length_fmap, Hlen, plan_length.
    + intros Hlo Hreps.
      destruct (plan_head lo hi reps Hlo Hreps) as [rest Hplan].
      rewrite Hplan in Hrun. pose proof Hrun as Hstart.
      apply run_starts in Hstart as ([[]|e] & rest' & ->).
      * eexists. by left.
      * eexists. right. exists e. split; [done|].
        by destruct (run_first_failure _ _ _ _ _ _ _ _ _ 0 _ _ Hrun eq_refl).
    + intros Hlo Hreps. specialize (Hfirst a3m path eq_refl Hlo Hreps).
      rewrite Hevs in Hfirst. simpl in Hfirst.
      rewrite requests_predict_events in Hfirst.
      eexists. split; [exact Hfirst|done].
  - destruct Hcell as [Hc ->]. by rewrite Hc.
Qed.

(** C6 on the notebook's constants: the fetch returns an alignment text
    and a template path, and the 90 predictions all receive the two. *)
Lemma alignment_fetched_once_and_passed_on_notebook :
  let out := sweep_cell demo_env jobname sequence pdbs 16 34 5 fresh_world in
  let fetch :=
    run_job demo_env (new_MMSeqs2Runner jobname sequence) (Some pdbs)
      fresh_world in
  let evs := events fresh_world out.1 in
  fetch.2 = Ok (">101", "T4_lysozyme_env") ∧
  fetches evs = [fetch_call jobname sequence pdbs] ∧
  length (requests evs) = 90%nat ∧
  Forall (λ req, req_a3m_lines req = ">101" ∧
                 req_template_path req = "T4_lysozyme_env")
    (requests evs).
Proof.
  intros out fetch evs.
  assert (fetch.2 = Ok (">101", "T4_lysozyme_env")) as Hfetch
    by (vm_compute; reflexivity).
  assert (out.2 = Ok tt) as Hok by (vm_compute; reflexivity).
  pose proof (alignment_fetched_once_and_passed_on
                demo_env jobname sequence pdbs 16 34 5 fresh_world) as H.
  cbv zeta in H. fold fetch in H. fold out in H. fold evs in H.
  destruct H as (_ & Hfetches & _ & H). rewrite Hfetch in H.
  destruct H as (Hall & _ & Hlen & _).
  split_and!.
  - exact Hfetch.
  - exact Hfetches.
  - etrans; [exact (Hlen Hok)|reflexivity].
  - exact Hall.
Defined.

(** ** Errors *)

(** C7.  The cell handles no exception and retries nothing.  If the
    alignment fetch raises, the cell raises the same exception and makes
    no prediction.  If a prediction raises, it is the last call of the
    run and the cell raises the same exception, so that no later pair of
    the sweep is served.  Conversely an exception of the cell is the one
    its last call raised.  No fetch and no output name occurs twice in a
    run. *)
Theorem errors_propagate_and_stop_the_sweep
    env jobname sequence pdbs lo hi reps w :
  let out := sweep_cell env jobname sequence pdbs lo hi reps w in
  let fetch :=
    run_job env (new_MMSeqs2Runner jobname sequence) (Some pdbs) w in
  let evs := events w out.1 in
  (∀ e, fetch.2 = Raise e →
        out.2 = Raise e ∧
        evs = [Fetch (fetch_call jobname sequence pdbs) (Raise e)]) ∧
  (∀ i req e, evs !! i = Some (Predict req (Raise e)) →
        out.2 = Raise e ∧ length evs = S i ∧
        (length (requests evs) ≤ length (plan lo hi reps))%nat ∧
        (λ req, (req_max_extra_msa req, req_outname req)) <$> requests evs =
        (λ p, (p.1, outname p.2 p.1)) <$>
          take (length (requests evs)) (plan lo hi reps)) ∧
  (∀ e, out.2 = Raise e →
        last evs = Some (Fetch (fetch_call jobname sequence pdbs) (Raise e)) ∨
        ∃ req wk, last evs = Some (Predict req (Raise e)) ∧
                  forward_pass env wk req = Raise e) ∧
  (out.2 = Ok tt →
        Forall (λ ev, match ev with
                      | Fetch _ o => returned o
                      | Predict _ o => returned o
                      end) evs) ∧
  fetches evs = [fetch_call jobname sequence pdbs] ∧
  NoDup (req_outname <$> requests evs).
Proof.
  intros out fetch evs.
  pose proof (cell_run env jobname sequence pdbs lo hi reps w) as Hcell.
  pose proof (cell_outnames_NoDup env jobname sequence pdbs lo hi reps w)
    as Hnodup.
  destruct (cell_outnames env jobname sequence pdbs lo hi reps w)
    as (n & _ & Hnames).
  fold out in Hnames, Hnodup. fold evs in Hnames, Hnodup.
  assert (length (requests evs) = length (take n (plan lo hi reps))) as Hlen.
  { apply (f_equal length) in Hnames. by rewrite !length_fmap in Hnames. }
  assert ((λ req, (req_max_extra_msa req, req_outname req)) <$> requests evs =
          (λ p, (p.1, outname p.2 p.1)) <$>
            take (length (requests evs)) (plan lo hi reps)) as Hprefix.
  { rewrite Hnames, Hlen, length_take. f_equal.
    destruct (decide (n ≤ length (plan lo hi reps))%nat).
    - by rewrite Nat.min_l.
    - rewrite Nat.min_r by lia. by rewrite !firstn_all2 by lia. }
  assert (length (requests evs) ≤ length (plan lo hi reps))%nat as Hle
    by (rewrite Hlen, length_take; lia).
  clear Hnames Hlen.
  fold fetch in Hcell. fold out in Hcell. fold evs in Hcell.
  destruct fetch.2 as [[a3m path]|e0].
  - destruct Hcell as (made & Hrun & Hevs). split_and!; try done.
    + intros i req e Hi. rewrite Hevs in Hi.
      destruct i as [|i]; [done|]. simpl in Hi.
      apply list_lookup_fmap_Some in Hi as ([req' o] & Heq & Hi).
      unfold predict_event in Heq. simplify_eq/=.
      destruct (run_first_failure _ _ _ _ _ _ _ _ _ _ _ _ Hrun Hi)
        as [Hres Hmade].
      split_and!; [done| |done|done].
      rewrite Hevs. simpl. by rewrite length_fmap, Hmade.
    + intros e He. right. rewrite He in Hrun.
      apply run_raise in Hrun as (before & req & wk & -> & _ & Hwk).
      exists req, wk. split; [|done]. rewrite Hevs, fmap_app. simpl.
      by rewrite app_comm_cons, last_snoc.
    + intros Hok. rewrite Hok in Hrun.
      apply run_complete in Hrun as [_ Hall]. rewrite Hevs.
      constructor; [done|]. apply Forall_fmap.
      eapply Forall_impl; [exact Hall|]. intros [req o] Ho. simpl in *.
      by subst o.
    + rewrite Hevs. simpl. by rewrite fetches_predict_events.
  - destruct Hcell as [Hc Hevs]. split_and!; try done.
    + intros e [= ->]. by rewrite Hc.
    + intros i req e Hi. rewrite Hevs in Hi. by destruct i as [|[|i]].
    + intros e He. left. rewrite Hc in He. simplify_eq/=. by rewrite Hevs.
    + intros Hok. by rewrite Hc in Hok.
    + by rewrite Hevs.
Qed.

(** Two runs on the notebook's constants: the network fails at depth 17,
    so the run stops at its sixth prediction; the service is unreachable,
    so no prediction is made at all. *)
Example sweep_stops_at_first_failure :
  let out := notebook_cell failing_env fresh_world in
  out.2 = Raise "ResourceExhausted" ∧
  req_outname <$> requests (events fresh_world out.1) =
    ["0_16.pdb"; "1_16.pdb"; "2_16.pdb"; "3_16.pdb"; "4_16.pdb"; "0_17.pdb"] ∧
  map_to_list (files out.1) =
    map_to_list (files (sweep_cell demo_env jobname sequence pdbs 16 17 5
                          fresh_world).1).
Proof. vm_compute. done. Qed.

Example sweep_stops_when_fetch_fails :
  let out := notebook_cell offline_env fresh_world in
  out.2 = Raise "ConnectionError" ∧
  events fresh_world out.1 =
    [Fetch (fetch_call jobname sequence pdbs) (Raise "ConnectionError")] ∧
  files out.1 = ∅.
Proof. vm_compute. done. Qed.

(** ** Output files *)

(** A prediction that returns has written its output name and nothing
    else; one that raises has written nothing. *)
Lemma predict_files env req w :
  let out := predict_structure_from_templates env req w in
  match forward_pass env w req with
  | Ok pdb => out.2 = Ok tt ∧ files out.1 = <[req_outname req := pdb]> (files w)
  | Raise e => out.2 = Raise e ∧ files out.1 = files w
  end.
Proof.
  unfold predict_structure_from_templates.
  by destruct (forward_pass env w req).
Qed.

(** The files a complete run of the cell leaves are those it found plus
    the output names of its requests. *)
Lemma cell_files env jobname sequence pdbs lo hi reps w :
  let out := sweep_cell env jobname sequence pdbs lo hi reps w in
  out.2 = Ok tt →
  dom (files out.1) =
  dom (files w) ∪ list_to_set (req_outname <$> requests (events w out.1)).
Proof.
  intros out Hok.
  pose proof (cell_run env jobname sequence pdbs lo hi reps w) as Hcell.
  destruct (run_job_frame env (new_MMSeqs2Runner jobname sequence)
              (Some pdbs) w) as (_ & Hfiles & _).
  fold out in Hcell.
  destruct (run_job env _ _ w).2 as [[a3m path]|e].
  - destruct Hcell as (made & Hrun & ->). simpl.
    rewrite requests_predict_events.
    rewrite (run_files_dom _ _ _ _ _ _ _ _ _ Hrun), Hfiles.
    rewrite Hok in Hrun. apply run_complete in Hrun as [_ Hall].
    assert (filter (λ x, returned x.2) made = made) as ->; [|done].
    clear -Hall. induction Hall as [|[req o] made Ho _ IH]; [done|].
    simpl in Ho. subst o. rewrite filter_cons_True by done. by rewrite IH.
  - destruct Hcell as [Hc _]. rewrite Hc in Hok. done.
Qed.

(** C5.  A prediction that returns writes exactly one file, the one at
    its output name: the file holds the new structure whether or not a
    file was there before, and no other file changes.  In a complete run
    of the cell the output names of the N x R predictions are those of the
    (depth, repetition) pairs and are pairwise distinct, and the files
    left behind are the earlier ones plus one per prediction. *)
Theorem one_output_file_per_prediction
    env jobname sequence pdbs lo hi reps w :
  let out := sweep_cell env jobname sequence pdbs lo hi reps w in
  out.2 = Ok tt →
  let names := req_outname <$> requests (events w out.1) in
  (∀ req w0 pdb,
     forward_pass env w0 req = Ok pdb →
     let w1 := (predict_structure_from_templates env req w0).1 in
     files w1 = <[req_outname req := pdb]> (files w0) ∧
     files w1 !! req_outname req = Some pdb ∧
     (∀ name, name ≠ req_outname req → files w1 !! name = files w0 !! name) ∧
     (is_Some (files w0 !! req_outname req) →
      dom (files w1) = dom (files w0))) ∧
  names = (λ p, outname p.2 p.1) <$> plan lo hi reps ∧
  NoDup names ∧
  (∀ n d n' d', outname n d = outname n' d' → n = n' ∧ d = d') ∧
  dom (files out.1) = dom (files w) ∪ list_to_set names ∧
  size (list_to_set names : gset string) =
    (Z.to_nat (hi - lo) * Z.to_nat reps)%nat.
Proof.
  intros out Hok names.
  pose proof (cell_outnames_NoDup env jobname sequence pdbs lo hi reps w)
    as Hnodup.
  fold out in Hnodup. fold names in Hnodup.
  assert (names = (λ p, outname p.2 p.1) <$> plan lo hi reps) as Hnames.
  { destruct (cell_outnames env jobname sequence pdbs lo hi reps w)
      as (n & Hn & Heq).
    rewrite (Hn Hok), firstn_all in Heq.
    apply (f_equal (fmap snd)) in Heq.
    by rewrite <- !list_fmap_compose in Heq. }
  split_and!; try done.
  - intros req w0 pdb Hfp w1.
    pose proof (predict_files env req w0) as Hp. rewrite Hfp in Hp.
    destruct Hp as [_ Hp]. fold w1 in Hp. rewrite Hp.
    split_and!; [done|by rewrite lookup_insert_eq| |].
    + intros name Hne. by rewrite lookup_insert_ne.
    + intros Hsome. rewrite dom_insert_L.
      apply elem_of_dom in Hsome. set_solver.
  - intros n d n' d'. apply outname_inj.
  - by apply cell_files.
  - rewrite size_list_to_set by done.
    by rewrite Hnames, length_fmap, plan_length.
Qed.

Lemma one_output_file_per_prediction_notebook :
  let out := sweep_cell demo_env jobname sequence pdbs 16 34 5 fresh_world in
  out.2 = Ok tt ∧
  NoDup (req_outname <$> requests (events fresh_world out.1)) ∧
  size (files out.1) = 90%nat.
Proof.
  intros out.
  assert (out.2 = Ok tt) as Hok by (vm_compute; reflexivity).
  destruct (one_output_file_per_prediction
              demo_env jobname sequence pdbs 16 34 5 fresh_world Hok)
    as (_ & _ & Hnodup & _ & Hdom & Hsize).
  split_and!; [exact Hok|exact Hnodup|].
  subst out. rewrite <- (size_dom (D := gset string)), Hdom.
  change (dom (files fresh_world)) with (∅ : gset string).
  rewrite (left_id_L ∅ (∪)). etrans; [exact Hsize|reflexivity].
Defined.

(** Running the driver twice on one output name leaves one file, holding
    the second structure. *)
Example second_prediction_overwrites :
  let req m := request_of "MK" ">101" "job_env" (16, 0) m in
  let w1 := (predict_structure_from_templates demo_env (req 1) fresh_world).1 in
  let w2 := (predict_structure_from_templates demo_env (req 2) w1).1 in
  map_to_list (files w1) = [("0_16.pdb", "MODEL 1")] ∧
  map_to_list (files w2) = [("0_16.pdb", "MODEL 2")].
Proof. vm_compute. done. Qed.

(** C8.  Take two complete runs of the cell over the same depth range
    and repetition count.  Whatever the raw draws, and whatever else
    differs between the two runs, they request the same output names in
    the same order: the name of a prediction is a function of its
    repetition index and depth.  The files the runs add are therefore the
    same. *)
Theorem output_names_independent_of_draws
    env1 env2 jobname1 jobname2 sequence1 sequence2 pdbs1 pdbs2
    lo hi reps w1 w2 :
  let out1 := sweep_cell env1 jobname1 sequence1 pdbs1 lo hi reps w1 in
  let out2 := sweep_cell env2 jobname2 sequence2 pdbs2 lo hi reps w2 in
  out1.2 = Ok tt → out2.2 = Ok tt →
  let names1 := req_outname <$> requests (events w1 out1.1) in
  let names2 := req_outname <$> requests (events w2 out2.1) in
  names1 = names2 ∧
  names1 = (λ p, outname p.2 p.1) <$> plan lo hi reps ∧
  (list_to_set names1 : gset string) = list_to_set names2 ∧
  dom (files out1.1) = dom (files w1) ∪ list_to_set names1 ∧
  dom (files out2.1) = dom (files w2) ∪ list_to_set names1.
Proof.
  intros out1 out2 Hok1 Hok2 names1 names2.
  assert (∀ env jobname sequence pdbs w,
            (sweep_cell env jobname sequence pdbs lo hi reps w).2 = Ok tt →
            req_outname <$>
              requests
                (events w
                   (sweep_cell env jobname sequence pdbs lo hi reps w).1) =
            (λ p, outname p.2 p.1) <$> plan lo hi reps) as Hnames.
  { intros env jobname sequence pdbs w Hok.
    destruct (cell_outnames env jobname sequence pdbs lo hi reps w)
      as (n & Hn & Heq).
    rewrite (Hn Hok), firstn_all in Heq.
    apply (f_equal (fmap snd)) in Heq.
    by rewrite <- !list_fmap_compose in Heq. }
  assert (names1 = names2) as H12.
  { unfold names1, names2, out1, out2.
    rewrite (Hnames env1) by exact Hok1. by rewrite (Hnames env2). }
  split_and!.
  - done.
  - by apply Hnames.
  - by rewrite H12.
  - by apply cell_files.
  - rewrite H12. by apply cell_files.
Qed.

Lemma output_names_independent_of_draws_notebook :
  let out1 := sweep_cell demo_env jobname sequence pdbs 16 34 5 fresh_world in
  let out2 :=
    sweep_cell other_draws_env jobname sequence pdbs 16 34 5 fresh_world in
  (out1.2 = Ok tt ∧ out2.2 = Ok tt) ∧
  req_model_id <$> requests (events fresh_world out1.1) ≠
    req_model_id <$> requests (events fresh_world out2.1) ∧
  req_outname <$> requests (events fresh_world out1.1) =
    req_outname <$> requests (events fresh_world out2.1).
Proof.
  intros out1 out2.
  assert (out1.2 = Ok tt) as Hok1 by (vm_compute; reflexivity).
  assert (out2.2 = Ok tt) as Hok2 by (vm_compute; reflexivity).
  destruct (output_names_independent_of_draws
              demo_env other_draws_env jobname jobname sequence sequence
              pdbs pdbs 16 34 5 fresh_world fresh_world Hok1 Hok2)
    as (Hsame & _).
  split_and!; [exact Hok1|exact Hok2| |exact Hsame].
  vm_compute. discriminate.
Defined.

(** ** The template policy *)

Lemma select_templates_filter wanted found :
  wanted ≠ [] →
  select_templates (Some wanted) found = filter (λ t, t ∈ wanted) found.
Proof. by destruct wanted. Qed.

(** C3.  When the service answers, [run_job] called with no template
    list or with the empty list returns the alignment text and a template
    directory holding every template the service reported, unfiltered.
    Called with a non-empty list, what it returns is a directory holding
    exactly the reported templates that are in the list: only templates
    from the list, and none at all when no reported template is in it
    (unless the client is set to raise in that case, and then nothing is
    returned). *)
Theorem run_job_template_policy env r templates w reply :
  service env (seq r) = Ok reply →
  let out := run_job env r templates w in
  let path := workdir env (job r) in
  (templates = None ∨ templates = Some [] →
     out.2 = Ok (reply_a3m reply, path) ∧
     dirs out.1 !! path = Some (reply_templates reply)) ∧
  (∀ wanted, templates = Some wanted → wanted ≠ [] →
     match out.2 with
     | Ok (a3m_lines, template_path) =>
         a3m_lines = reply_a3m reply ∧ template_path = path ∧
         ∃ kept,
           dirs out.1 !! template_path = Some kept ∧
           kept = filter (λ t, t ∈ wanted) (reply_templates reply) ∧
           (∀ t, t ∈ kept → t ∈ wanted ∧ t ∈ reply_templates reply) ∧
           ((∀ t, t ∈ reply_templates reply → t ∉ wanted) → kept = [])
     | Raise e =>
         empty_match env = Some e ∧
         ∀ t, t ∈ reply_templates reply → t ∉ wanted
     end) ∧
  (empty_match env = None → returned out.2).
Proof.
  intros Hservice out path. subst out. unfold run_job. rewrite Hservice.
  fold path. split_and!.
  - intros [-> | ->]; simpl.
    + destruct (reply_templates reply); simpl;
        by rewrite lookup_insert_eq.
    + destruct (reply_templates reply); simpl;
        by rewrite lookup_insert_eq.
  - intros wanted -> Hwanted.
    rewrite select_templates_filter by done.
    set (kept := filter (λ t, t ∈ wanted) (reply_templates reply)).
    assert (∀ t, t ∈ kept → t ∈ wanted ∧ t ∈ reply_templates reply) as Hkept.
    { intros t Ht. by apply list_elem_of_filter in Ht. }
    assert ((∀ t, t ∈ reply_templates reply → t ∉ wanted) → kept = [])
      as Hnone.
    { intros Hno. destruct kept as [|t kept'] eqn:Hk; [done|].
      destruct (Hkept t) as [Hw Hr]; [by left|]. by destruct (Hno t). }
    assert (kept = [] → ∀ t, t ∈ reply_templates reply → t ∉ wanted)
      as Hempty.
    { intros Hk t Ht Hw.
      assert (t ∈ kept) as Hin by (by apply list_elem_of_filter).
      rewrite Hk in Hin. by apply not_elem_of_nil in Hin. }
    destruct kept as [|t kept'] eqn:Hk.
    + destruct wanted as [|t' wanted']; [done|].
      destruct (empty_match env) as [e|]; simpl.
      * split; [done|]. by apply Hempty.
      * split_and!; try done. exists []. by rewrite lookup_insert_eq.
    + simpl. split_and!; try done. exists (t :: kept').
      by rewrite lookup_insert_eq.
  - intros ->.
    destruct (select_templates _ _); destruct templates as [[|]|]; done.
Qed.

(** C3 in the demonstration environment: of the two templates the
    service reports, the one in the notebook's list is kept. *)
Lemma run_job_template_policy_notebook :
  let r := new_MMSeqs2Runner jobname sequence in
  let out := run_job demo_env r (Some pdbs) fresh_world in
  service demo_env (seq r) =
    Ok {| reply_a3m := ">101"; reply_templates := ["6LB8_A"; "1XYZ_B"] |} ∧
  out.2 = Ok (">101", "T4_lysozyme_env") ∧
  ∃ kept, dirs out.1 !! "T4_lysozyme_env" = Some kept ∧
          ∀ t, t ∈ kept → t ∈ pdbs ∧ t ∈ ["6LB8_A"; "1XYZ_B"].
Proof.
  intros r out.
  assert (service demo_env (seq r) =
          Ok {| reply_a3m := ">101";
                reply_templates := ["6LB8_A"; "1XYZ_B"] |}) as Hservice
    by reflexivity.
  destruct (run_job_template_policy demo_env r (Some pdbs) fresh_world _
              Hservice) as (_ & Hfilter & _).
  specialize (Hfilter pdbs eq_refl ltac:(discriminate)).
  assert (out.2 = Ok (">101", "T4_lysozyme_env")) as Hout
    by (vm_compute; reflexivity).
  fold out in Hfilter. rewrite Hout in Hfilter.
  destruct Hfilter as (_ & _ & kept & Hdir & _ & Hkept & _).
  split_and!; [exact Hservice|exact Hout|].
  exists kept. split; [exact Hdir|exact Hkept].
Defined.

(** The empty list and a missing list keep everything. *)
Example run_job_unfiltered :
  let r := new_MMSeqs2Runner jobname sequence in
  map_to_list (dirs (run_job demo_env r (Some []) fresh_world).1) =
    [("T4_lysozyme_env", ["6LB8_A"; "1XYZ_B"])] ∧
  map_to_list (dirs (run_job demo_env r None fresh_world).1) =
    [("T4_lysozyme_env", ["6LB8_A"; "1XYZ_B"])] ∧
  map_to_list (dirs (run_job demo_env r (Some ["9ZZZ_Z"]) fresh_world).1) =
    [("T4_lysozyme_env", [])].
Proof. vm_compute. done. Qed.

(** ** Beyond the claims: output names and the archive pattern *)

Lemma has_char_app c s1 s2 :
  has_char c (s1 +:+ s2) = has_char c s1 || has_char c s2.
Proof.
  induction s1 as [|d s1 IH]; [done|]. simpl. by case_decide.
Qed.

Lemma ends_with_unfold suffix s :
  ends_with suffix s =
  if String.eqb s suffix then true
  else match s with
       | EmptyString => false
       | String _ rest => ends_with suffix rest
       end.
Proof. by destruct s. Qed.

Lemma ends_with_app suffix s : ends_with suffix (s +:+ suffix) = true.
Proof.
  induction s as [|c s IH].
  - change ("" +:+ suffix) with suffix.
    rewrite ends_with_unfold. by rewrite String.eqb_refl.
  - change (String c s +:+ suffix) with (String c (s +:+ suffix)).
    rewrite ends_with_unfold, IH.
    by destruct (String.eqb (String c (s +:+ suffix)) suffix).
Qed.

Lemma string_app_assoc (a b d : string) :
  a +:+ (b +:+ d) = (a +:+ b) +:+ d.
Proof.
  induction a as [|x a IH]; [done|].
  change (String x (a +:+ (b +:+ d)) = String x ((a +:+ b) +:+ d)).
  by rewrite IH.
Qed.

Lemma pretty_N_char_digit x : is_digit (pretty_N_char x) = true.
Proof. unfold pretty_N_char. by repeat case_match. Qed.

(** A positive number is printed with a digit in front. *)
Lemma pretty_N_go_head x s :
  (0 < x)%N →
  ∃ c rest, pretty_N_go x s = String c rest ∧ is_digit c = true.
Proof.
  revert s. induction (N.lt_wf_0 x) as [x _ IH]; intros s Hx.
  rewrite pretty_N_go_step by done.
  destruct (decide (x `div` 10 = 0)%N) as [Hq|Hq].
  - rewrite Hq, pretty_N_go_0. eexists _, _. split; [done|].
    apply pretty_N_char_digit.
  - apply IH; [by apply N.div_lt|by apply N.neq_0_lt_0].
Qed.

Lemma pretty_Z_head (z : Z) :
  0 ≤ z → ∃ c rest, pretty z = String c rest ∧ is_digit c = true.
Proof.
  intros Hz. destruct z as [|p|p]; [by exists "0"%char, ""| |lia].
  unfold pretty, pretty_Z, pretty, pretty_positive, pretty, pretty_N.
  rewrite decide_False by done. by apply pretty_N_go_head.
Qed.

Lemma outname_matches_pattern n_model nseq :
  0 ≤ n_model →
  matches_star_pdb (outname n_model nseq) = true ∧
  looks_like_option (outname n_model nseq) = false.
Proof.
  intros Hn. destruct (pretty_Z_head n_model Hn) as (c & rest & Hp & Hc).
  assert (has_char "/" (outname n_model nseq) = false) as Hslash.
  { unfold outname. rewrite !has_char_app.
    rewrite !has_char_pretty_Z by done. done. }
  assert (ends_with ".pdb" (outname n_model nseq) = true) as Hend.
  { unfold outname.
    change (pretty n_model +:+ "_" +:+ pretty nseq +:+ ".pdb")
      with (pretty n_model +:+ ("_" +:+ (pretty nseq +:+ ".pdb"))).
    rewrite !string_app_assoc. apply ends_with_app. }
  unfold matches_star_pdb, looks_like_option.
  rewrite Hslash, Hend. unfold outname in *. rewrite Hp. simpl.
  split.
  - rewrite bool_decide_eq_false_2; [done|]. intros ->. done.
  - apply bool_decide_eq_false_2. intros ->. done.
Qed.

(** X8.  Every output name the cell requests, in any run, is matched by
    the pattern [*".pdb"] of the archive step that ends the cell, and none
    begins with a dash, which [zip] would read as an option. *)
Theorem output_names_match_archive_pattern
    env jobname sequence pdbs lo hi reps w :
  Forall (λ req, matches_star_pdb (req_outname req) = true ∧
                 looks_like_option (req_outname req) = false)
    (requests
       (events w (sweep_cell env jobname sequence pdbs lo hi reps w).1)).
Proof.
  apply Forall_forall. intros req Hreq.
  apply cell_request_inv in Hreq
    as (a3m & path & nseq & n_model & m & _ & Hn & _ & ->).
  simpl. apply outname_matches_pattern. lia.
Qed.

Example archive_pattern_examples :
  matches_star_pdb "4_33.pdb" = true ∧
  matches_star_pdb "af2.zip" = false ∧
  matches_star_pdb ".hidden.pdb" = false ∧
  matches_star_pdb "T4_lysozyme_env/1abc.pdb" = false ∧
  looks_like_option (outname (-1) 16) = true.
Proof. vm_compute. done. Qed.

(** ** Beyond the claims: draws, empty ranges, splitting the sweep *)

(** The two ways a run of the cell can go, with what is known in each. *)
Lemma cell_cases env jobname sequence pdbs lo hi reps w :
  let out := sweep_cell env jobname sequence pdbs lo hi reps w in
  let fetch :=
    run_job env (new_MMSeqs2Runner jobname sequence) (Some pdbs) w in
  files fetch.1 = files w ∧ rng_draws fetch.1 = rng_draws w ∧
  ((∃ e, fetch.2 = Raise e ∧ out = (fetch.1, Raise e) ∧
         requests (events w out.1) = []) ∨
   (∃ a3m path made,
      fetch.2 = Ok (a3m, path) ∧
      sweep_run env (seq (new_MMSeqs2Runner jobname sequence)) a3m path
        (plan lo hi reps) fetch.1 out.1 out.2 made ∧
      requests (events w out.1) = made.*1)).
Proof.
  intros out fetch.
  destruct (run_job_frame env (new_MMSeqs2Runner jobname sequence)
              (Some pdbs) w) as (_ & Hfiles & Hrng).
  pose proof (cell_run env jobname sequence pdbs lo hi reps w) as Hcell.
  fold fetch in Hcell, Hfiles, Hrng. fold out in Hcell.
  split_and!; [done|done|].
  destruct fetch.2 as [[a3m path]|e].
  - right. destruct Hcell as (made & Hrun & Hevs).
    exists a3m, path, made. split_and!; [done|done|].
    rewrite Hevs. simpl. apply requests_predict_events.
  - left. destruct Hcell as [Hc Hevs]. exists e.
    split_and!; [done|done|]. by rewrite Hevs.
Qed.

(** X2.  In any run of the cell, complete or not, the random generator
    is drawn from exactly once per prediction made, the failing one
    included, and never by the fetch. *)
Theorem one_draw_per_prediction env jobname sequence pdbs lo hi reps w :
  let out := sweep_cell env jobname sequence pdbs lo hi reps w in
  rng_draws out.1 =
    (rng_draws w + length (requests (events w out.1)))%nat ∧
  (out.2 = Ok tt →
   rng_draws out.1 =
     (rng_draws w + Z.to_nat (hi - lo) * Z.to_nat reps)%nat).
Proof.
  intros out.
  destruct (cell_cases env jobname sequence pdbs lo hi reps w)
    as (_ & Hrng & [(e & _ & Hc & Hreqs)|(a3m & path & made & _ & Hrun & Hreqs)]);
    fold out in Hc || fold out in Hrun; fold out in Hreqs; rewrite Hreqs.
  - rewrite Hc. simpl. split; [lia|done].
  - rewrite length_fmap, <- Hrng. split; [by eapply run_draws|].
    intros Hok. rewrite Hok in Hrun.
    rewrite (run_draws _ _ _ _ _ _ _ _ _ Hrun).
    apply run_complete in Hrun as [-> _]. by rewrite plan_length.
Qed.

Lemma plan_nil lo hi reps : hi ≤ lo ∨ reps ≤ 0 → plan lo hi reps = [].
Proof.
  intros H. apply length_zero_iff_nil. rewrite plan_length. lia.
Qed.

(** X1.  With an empty depth range ([hi <= lo], as in a reversed range)
    or no repetition ([reps <= 0]) the sweep still contacts the alignment
    service and then predicts nothing: its only call is the fetch, the
    world is as the fetch left it, no index has been drawn and no
    structure file has changed when control reaches the archive step. *)
Theorem empty_sweep_only_fetches env jobname sequence pdbs lo hi reps w :
  hi ≤ lo ∨ reps ≤ 0 →
  let out := sweep_cell env jobname sequence pdbs lo hi reps w in
  let fetch :=
    run_job env (new_MMSeqs2Runner jobname sequence) (Some pdbs) w in
  out.1 = fetch.1 ∧
  events w out.1 = [Fetch (fetch_call jobname sequence pdbs) fetch.2] ∧
  requests (events w out.1) = [] ∧
  files out.1 = files w ∧ rng_draws out.1 = rng_draws w.
Proof.
  intros Hempty out fetch.
  destruct (run_job_frame env (new_MMSeqs2Runner jobname sequence)
              (Some pdbs) w) as (Hlog & Hfiles & Hrng).
  fold fetch in Hlog, Hfiles, Hrng.
  assert (out.1 = fetch.1) as Hout.
  { unfold out. rewrite sweep_cell_unfold, (plan_nil _ _ _ Hempty).
    fold fetch. by destruct fetch as [w1 [[a3m path]|e]]. }
  assert (events w out.1 =
          [Fetch (fetch_call jobname sequence pdbs) fetch.2]) as Hevs.
  { unfold events. rewrite Hout, Hlog. by rewrite drop_app_length. }
  rewrite Hevs, Hout. by split_and!.
Qed.

(** X1 for the notebook's range written backwards: the service is asked
    once, nothing is predicted and no file is written. *)
Lemma empty_sweep_only_fetches_reversed_range :
  let out := sweep_cell demo_env jobname sequence pdbs 34 16 5 fresh_world in
  (16 ≤ 34 ∨ 5 ≤ 0) ∧
  events fresh_world out.1 =
    [Fetch (fetch_call jobname sequence pdbs)
       (Ok (">101", "T4_lysozyme_env"))] ∧
  requests (events fresh_world out.1) = [] ∧
  files out.1 = ∅ ∧ rng_draws out.1 = 0%nat.
Proof.
  intros out. split; [lia|].
  destruct (empty_sweep_only_fetches demo_env jobname sequence pdbs 34 16 5
              fresh_world ltac:(lia)) as (_ & Hevs & Hreqs & Hfiles & Hrng).
  split_and!; [exact Hevs|exact Hreqs|exact Hfiles|exact Hrng].
Defined.

Lemma py_range_split lo mid hi :
  lo ≤ mid ≤ hi → py_range lo hi = py_range lo mid ++ py_range mid hi.
Proof.
  intros H. unfold py_range.
  replace (hi - lo) with ((mid - lo) + (hi - mid)) by lia.
  rewrite seqZ_app by lia. do 2 f_equal. lia.
Qed.

(** The loops of the cell are [sweep_loops], run on what the fetch
    returned. *)
Lemma sweep_cell_loops env jobname sequence pdbs lo hi reps :
  sweep_cell env jobname sequence pdbs lo hi reps =
  ('(a3m_lines, template_path) ←
     run_job env (new_MMSeqs2Runner jobname sequence) (Some pdbs);
   sweep_loops env (new_MMSeqs2Runner jobname sequence)
     a3m_lines template_path lo hi reps).
Proof. reflexivity. Qed.

(** X6.  The loops over [range(lo, hi)] do exactly what the loops over
    [range(lo, mid)] followed by the loops over [range(mid, hi)] do, for
    any cut [lo <= mid <= hi]: same calls, same draws, same files, same
    outcome, the second part not being run when the first raises. *)
Theorem sweep_loops_split env r a3m_lines template_path lo mid hi reps w :
  lo ≤ mid ≤ hi →
  sweep_loops env r a3m_lines template_path lo hi reps w =
  (sweep_loops env r a3m_lines template_path lo mid reps;;
   sweep_loops env r a3m_lines template_path mid hi reps) w.
Proof.
  intros Hmid. unfold sweep_loops.
  rewrite (py_range_split lo mid hi Hmid). apply for_each_app.
Qed.

Lemma sweep_loops_split_notebook :
  let r := new_MMSeqs2Runner jobname sequence in
  16 ≤ 20 ≤ 34 ∧
  sweep_loops demo_env r ">101" "T4_lysozyme_env" 16 34 5 fresh_world =
  (sweep_loops demo_env r ">101" "T4_lysozyme_env" 16 20 5;;
   sweep_loops demo_env r ">101" "T4_lysozyme_env" 20 34 5) fresh_world.
Proof.
  intros r. split; [lia|].
  apply (sweep_loops_split demo_env r ">101" "T4_lysozyme_env" 16 20 34 5).
  lia.
Defined.

(** ** Beyond the claims: what the sweep leaves on disk *)

Section RunFiles.
Context (env : Environment) (sq a3m path : string).

(** A run never removes a file. *)
Lemma run_files_grow ps w w' res made :
  sweep_run env sq a3m path ps w w' res made →
  dom (files w) ⊆ dom (files w').
Proof.
  intros Hrun. rewrite (run_files_dom _ _ _ _ _ _ _ _ _ Hrun). set_solver.
Qed.

(** With pairwise distinct output names, the file of a request that
    returned holds, at the end of the run, what its own forward pass
    produced; the forward pass ran in the world that the earlier requests
    of the run had left. *)
Lemma run_files_content ps w w' res made k req :
  sweep_run env sq a3m path ps w w' res made →
  NoDup (req_outname <$> made.*1) →
  made !! k = Some (req, Ok tt) →
  ∃ wk pdb,
    forward_pass env wk req = Ok pdb ∧
    log wk = log w ++ (predict_event <$> take k made) ∧
    rng_draws wk = (rng_draws w + S k)%nat ∧
    files w' !! req_outname req = Some pdb.
Proof.
  intros Hrun. revert k.
  induction Hrun as [w|p ps w e req' Hfp
                    |p ps w pdb w' res made req' Hfp Hrun IH];
    intros k Hnodup Hk.
  - done.
  - by destruct k.
  - rewrite fmap_cons, fmap_cons in Hnodup.
    apply NoDup_cons in Hnodup as [Hfresh Hnodup]. simpl in Hfresh.
    destruct k as [|k]; simpl in Hk.
    + simplify_eq. exists (tick_rng w), pdb. split_and!.
      * done.
      * simpl. by rewrite app_nil_r.
      * simpl. lia.
      * etrans; [exact (run_files_other _ _ _ _ _ _ _ _ _ _ Hrun Hfresh)|].
        simpl. apply lookup_insert_eq.
    + destruct (IH k Hnodup Hk) as (wk & pdb' & Hwk & Hlog & Hrng & Hfile).
      exists wk, pdb'. split_and!; try done.
      * rewrite Hlog. simpl. by rewrite <- app_assoc.
      * rewrite Hrng. simpl. lia.
Qed.

(** A run that raised has written the files of the requests before the
    failing one and has left the failing one's file as it was. *)
Lemma run_raise_files ps w w' e made :
  sweep_run env sq a3m path ps w w' (Raise e) made →
  NoDup (req_outname <$> made.*1) →
  dom (files w') =
    dom (files w) ∪
    list_to_set (req_outname <$> take (length made - 1) made.*1) ∧
  ∀ req, last made.*1 = Some req →
         files w' !! req_outname req = files w !! req_outname req.
Proof.
  intros Hrun. remember (Raise e) as res eqn:Hres.
  induction Hrun as [w|p ps w e' req' Hfp
                    |p ps w pdb w' res made req' Hfp Hrun IH];
    intros Hnodup; try done.
  - simpl. split; [set_solver|]. by intros req [= <-].
  - rewrite fmap_cons, fmap_cons in Hnodup.
    apply NoDup_cons in Hnodup as [Hfresh Hnodup]. simpl in Hfresh.
    destruct (IH Hres Hnodup) as [Hdom Hlast]. subst res.
    destruct (run_raise _ _ _ _ _ _ _ _ _ Hrun)
      as (before & req0 & wk & Hmade & _ & _).
    assert (last made.*1 = Some req0) as Hlast0
      by (rewrite Hmade, fmap_app; apply last_snoc).
    assert (length ((req', Ok tt) :: made) - 1 = S (length made - 1))%nat
      as Hlen by (rewrite Hmade; simpl; rewrite !length_app; simpl; lia).
    split.
    + rewrite Hlen, Hdom. simpl files. rewrite dom_insert_L.
      rewrite fmap_cons. cbn [take]. rewrite fmap_cons.
      rewrite list_to_set_cons. clear. set_solver.
    + intros req Hreq. rewrite fmap_cons in Hreq.
      assert (req = req0) as ->.
      { rewrite Hmade, fmap_app in Hreq. simpl in Hreq.
        rewrite app_comm_cons, last_snoc in Hreq. congruence. }
      rewrite (Hlast req0 Hlast0).
      simpl files. rewrite lookup_insert_ne; [done|].
      intros Heq. apply Hfresh. rewrite Heq.
      apply list_elem_of_fmap_2. rewrite Hmade, fmap_app.
      apply elem_of_app. right. by left.
Qed.
End RunFiles.

(** X3.  In any run of the cell no structure file is removed, and a file
    whose name is not the output name of a (repetition, depth) pair of
    the sweep is left exactly as it was. *)
Theorem sweep_touches_only_its_output_names
    env jobname sequence pdbs lo hi reps w :
  let out := sweep_cell env jobname sequence pdbs lo hi reps w in
  dom (files w) ⊆ dom (files out.1) ∧
  ∀ name,
    (∀ nseq n_model, lo ≤ nseq < hi → 0 ≤ n_model < reps →
                     name ≠ outname n_model nseq) →
    files out.1 !! name = files w !! name.
Proof.
  intros out.
  destruct (cell_cases env jobname sequence pdbs lo hi reps w)
    as (Hfiles & _ & [(e & _ & Hc & _)|(a3m & path & made & _ & Hrun & Hreqs)]);
    fold out in Hc || (fold out in Hrun; fold out in Hreqs).
  - rewrite Hc. simpl. rewrite Hfiles. done.
  - rewrite <- Hfiles. split; [by eapply run_files_grow|].
    intros name Hname.
    apply (run_files_other _ _ _ _ _ _ _ _ _ _ Hrun).
    rewrite <- Hreqs. intros Hin.
    apply list_elem_of_fmap in Hin as (req & -> & Hreq).
    apply cell_request_inv in Hreq
      as (a3m' & path' & nseq & n_model & m & Hd & Hm & _ & ->).
    by apply (Hname nseq n_model).
Qed.

(** X4.  Nothing is rolled back when the cell raises: the files of all
    the predictions before the failing one are on disk, the failing
    prediction has written nothing, and no other file has appeared. *)
Theorem failed_sweep_keeps_earlier_outputs
    env jobname sequence pdbs lo hi reps w e :
  let out := sweep_cell env jobname sequence pdbs lo hi reps w in
  out.2 = Raise e →
  let reqs := requests (events w out.1) in
  dom (files out.1) =
    dom (files w) ∪
    list_to_set (req_outname <$> take (length reqs - 1) reqs) ∧
  ∀ req, last reqs = Some req →
         files out.1 !! req_outname req = files w !! req_outname req.
Proof.
  intros out He reqs.
  pose proof (cell_outnames_NoDup env jobname sequence pdbs lo hi reps w)
    as Hnodup. fold out in Hnodup. fold reqs in Hnodup.
  destruct (cell_cases env jobname sequence pdbs lo hi reps w)
    as (Hfiles & _ & [(e' & _ & Hc & Hreqs)|(a3m & path & made & _ & Hrun & Hreqs)]);
    fold out in Hc || fold out in Hrun; fold out in Hreqs; fold reqs in Hreqs.
  - rewrite Hreqs, Hc. simpl. rewrite Hfiles. split; [set_solver|done].
  - rewrite He in Hrun. rewrite Hreqs in Hnodup |- *.
    rewrite length_fmap, <- Hfiles.
    by apply (run_raise_files _ _ _ _ _ _ _ _ _ Hrun).
Qed.

Lemma failed_sweep_keeps_earlier_outputs_notebook :
  let out :=
    sweep_cell failing_env jobname sequence pdbs 16 34 5 fresh_world in
  out.2 = Raise "ResourceExhausted" ∧
  dom (files out.1) =
    dom (files fresh_world) ∪
    list_to_set
      (req_outname <$>
         take (length (requests (events fresh_world out.1)) - 1)
           (requests (events fresh_world out.1))).
Proof.
  intros out.
  assert (out.2 = Raise "ResourceExhausted") as He
    by (vm_compute; reflexivity).
  destruct (failed_sweep_keeps_earlier_outputs failing_env jobname sequence
              pdbs 16 34 5 fresh_world _ He) as [Hdom _].
  split; [exact He|exact Hdom].
Defined.

(** X5.  No prediction of a sweep overwrites the output of another: at
    the end of any run, the file at the output name of each prediction
    that returned holds the structure which that prediction's own forward
    pass produced, in the world left by the calls before it. *)
Theorem output_files_hold_their_own_prediction
    env jobname sequence pdbs lo hi reps w i req :
  let out := sweep_cell env jobname sequence pdbs lo hi reps w in
  events w out.1 !! i = Some (Predict req (Ok tt)) →
  ∃ wk pdb,
    forward_pass env wk req = Ok pdb ∧
    log wk = log w ++ take i (events w out.1) ∧
    rng_draws wk = (rng_draws w + i)%nat ∧
    files out.1 !! req_outname req = Some pdb.
Proof.
  intros out Hi.
  pose proof (cell_outnames_NoDup env jobname sequence pdbs lo hi reps w)
    as Hnodup. fold out in Hnodup.
  pose proof (cell_run env jobname sequence pdbs lo hi reps w) as Hcell.
  destruct (run_job_frame env (new_MMSeqs2Runner jobname sequence)
              (Some pdbs) w) as (Hlog & _ & Hrng).
  fold out in Hcell.
  destruct (run_job env _ _ w) as [w1 [[a3m path]|e]]; simpl in *.
  - destruct Hcell as (made & Hrun & Hevs). rewrite Hevs in Hi, Hnodup |- *.
    destruct i as [|k]; [done|]. simpl in Hi, Hnodup.
    rewrite requests_predict_events in Hnodup.
    apply list_lookup_fmap_Some in Hi as ([req' o] & Heq & Hk).
    unfold predict_event in Heq. simplify_eq/=.
    destruct (run_files_content _ _ _ _ _ _ _ _ _ _ _ Hrun Hnodup Hk)
      as (wk & pdb & Hwk & Hlogk & Hrngk & Hfile).
    exists wk, pdb. split_and!; try done.
    + rewrite Hlogk, Hlog, <- app_assoc. simpl. by rewrite fmap_take.
    + rewrite Hrngk, Hrng. lia.
  - destruct Hcell as [_ Hevs]. rewrite Hevs in Hi. by destruct i as [|[|i]].
Qed.

Lemma output_files_hold_their_own_prediction_notebook :
  let out := sweep_cell demo_env jobname sequence pdbs 16 34 5 fresh_world in
  let req := request_of (remove_whitespace sequence) ">101" "T4_lysozyme_env"
               (17, 0) 2 in
  events fresh_world out.1 !! 6%nat = Some (Predict req (Ok tt)) ∧
  files out.1 !! "0_17.pdb" = Some ("MODEL " +:+ pretty 2).
Proof.
  intros out req.
  assert (events fresh_world out.1 !! 6%nat = Some (Predict req (Ok tt)))
    as Hi by (vm_compute; reflexivity).
  destruct (output_files_hold_their_own_prediction demo_env jobname sequence
              pdbs 16 34 5 fresh_world 6 req Hi)
    as (wk & pdb & Hwk & _ & _ & Hfile).
  split; [exact Hi|].
  injection Hwk as <-. exact Hfile.
Defined.

(** X7.  Running the cell a second time over the same range, in the
    world a first complete run has left, replaces the outputs in place:
    when the second run completes, it has requested the same output names
    and the set of structure files is the one the first run left. *)
Theorem rerun_replaces_outputs_in_place
    env1 env2 jobname1 jobname2 sequence1 sequence2 pdbs1 pdbs2
    lo hi reps w :
  let out1 := sweep_cell env1 jobname1 sequence1 pdbs1 lo hi reps w in
  let out2 := sweep_cell env2 jobname2 sequence2 pdbs2 lo hi reps out1.1 in
  out1.2 = Ok tt → out2.2 = Ok tt →
  req_outname <$> requests (events out1.1 out2.1) =
    req_outname <$> requests (events w out1.1) ∧
  dom (files out2.1) = dom (files out1.1) ∧
  size (files out2.1) = size (files out1.1).
Proof.
  intros out1 out2 Hok1 Hok2.
  assert (∀ env jobname sequence pdbs w0,
            (sweep_cell env jobname sequence pdbs lo hi reps w0).2 = Ok tt →
            req_outname <$>
              requests
                (events w0
                   (sweep_cell env jobname sequence pdbs lo hi reps w0).1) =
            (λ p, outname p.2 p.1) <$> plan lo hi reps) as Hnames.
  { intros env jobname sequence pdbs w0 Hok.
    destruct (cell_outnames env jobname sequence pdbs lo hi reps w0)
      as (n & Hn & Heq).
    rewrite (Hn Hok), firstn_all in Heq.
    apply (f_equal (fmap snd)) in Heq.
    by rewrite <- !list_fmap_compose in Heq. }
  pose proof (Hnames env1 jobname1 sequence1 pdbs1 w Hok1) as H1.
  pose proof (Hnames env2 jobname2 sequence2 pdbs2 out1.1 Hok2) as H2.
  pose proof (cell_files env1 jobname1 sequence1 pdbs1 lo hi reps w Hok1)
    as Hdom1.
  pose proof (cell_files env2 jobname2 sequence2 pdbs2 lo hi reps out1.1 Hok2)
    as Hdom2.
  fold out1 in H1, H2, Hdom1, Hdom2. fold out2 in H2, Hdom2.
  assert (dom (files out2.1) = dom (files out1.1)) as Hdom.
  { rewrite Hdom2, H2, <- H1.
    assert (∀ X Y Z : gset string, X = Z ∪ Y → X ∪ Y = X) as Hset
      by (clear; set_solver).
    by apply (Hset _ _ (dom (files w))). }
  split_and!; [by rewrite H1, H2|done|].
  by rewrite <- !(size_dom (D := gset string)), Hdom.
Qed.

Lemma rerun_replaces_outputs_in_place_notebook :
  let out1 := sweep_cell demo_env jobname sequence pdbs 16 18 2 fresh_world in
  let out2 := sweep_cell other_draws_env jobname sequence pdbs 16 18 2 out1.1 in
  (out1.2 = Ok tt ∧ out2.2 = Ok tt) ∧
  dom (files out2.1) = dom (files out1.1) ∧
  map_to_list (files out2.1) ≠ map_to_list (files out1.1).
Proof.
  intros out1 out2.
  assert (out1.2 = Ok tt) as Hok1 by (vm_compute; reflexivity).
  assert (out2.2 = Ok tt) as Hok2 by (vm_compute; reflexivity).
  destruct (rerun_replaces_outputs_in_place demo_env other_draws_env
              jobname jobname sequence sequence pdbs pdbs 16 18 2
              fresh_world Hok1 Hok2) as (_ & Hdom & _).
  split_and!; [exact Hok1|exact Hok2|exact Hdom|].
  vm_compute. discriminate.
Defined.
